(** * Verification of the two maintenance scripts of lukgber-glitch/operate

    - [fix_enum_decorators.py]: the targeted decorator fixer ([fix_file],
      [main] over [FILES]);
    - [fix-ts-errors.py]: the bulk fixer ([fix_error_handling],
      [fix_class_properties], [main]).

    Python [str] values are modelled as [string]: a character is a code
    point below 256, classified as Python's [str.isspace] and the [re]
    module's [\s], [\w] classify it.  The [re] module is modelled by a
    backtracking matcher over the constructs the scripts' patterns use. *)

From Stdlib Require Import Bool Arith Lia List Ascii String DecimalString.
Import ListNotations.
Local Open Scope list_scope.
Local Open Scope string_scope.

(** ** Characters *)

Module Chars.

Definition code (c : ascii) : nat := nat_of_ascii c.

Definition between (lo hi n : nat) : bool := ((lo <=? n) && (n <=? hi))%nat.

(** [str.isspace] and the pattern class [\s] on code points below 256. *)
Definition is_space (c : ascii) : bool :=
  let n := code c in
  between 9 13 n || between 28 32 n || Nat.eqb n 133 || Nat.eqb n 160.

(** The pattern class [\w] on code points below 256: alphanumeric
    ([str.isalnum]) or the underscore. *)
Definition is_word (c : ascii) : bool :=
  let n := code c in
  between 48 57 n || between 65 90 n || between 97 122 n || Nat.eqb n 95
  || Nat.eqb n 170 || Nat.eqb n 178 || Nat.eqb n 179 || Nat.eqb n 181
  || Nat.eqb n 185 || Nat.eqb n 186 || between 188 190 n
  || between 192 214 n || between 216 246 n || between 248 255 n.

(** Characters with a meaning of their own in a pattern. *)
Definition is_meta (c : ascii) : bool :=
  existsb (Ascii.eqb c)
    (list_ascii_of_string ".^$*+?{}[]\|()").

Definition nl : ascii := ascii_of_nat 10.
Definition dquote : ascii := ascii_of_nat 34.

End Chars.

(** ** The [str] operations the scripts use *)

Module Str.

Import Chars.

(** [prefix.startswith]-style test: [starts_with p s] is [s.startswith(p)]. *)
Fixpoint starts_with (p s : string) : bool :=
  match p, s with
  | EmptyString, _ => true
  | String a p', String b s' => Ascii.eqb a b && starts_with p' s'
  | String _ _, EmptyString => false
  end.

(** [sub in s]. *)
Fixpoint contains (sub s : string) : bool :=
  starts_with sub s ||
  match s with
  | EmptyString => false
  | String _ s' => contains sub s'
  end.

(** [s[:n]] and [s[n:]] for [0 <= n]. *)
Fixpoint take (n : nat) (s : string) : string :=
  match n, s with
  | S n', String c s' => String c (take n' s')
  | _, _ => EmptyString
  end.

Fixpoint drop (n : nat) (s : string) : string :=
  match n, s with
  | S n', String _ s' => drop n' s'
  | _, _ => s
  end.

(** [s.replace(old, new, 1)]. *)
Fixpoint replace_first (old new s : string) : string :=
  if starts_with old s then new ++ drop (length old) s
  else match s with
       | EmptyString => EmptyString
       | String c s' => String c (replace_first old new s')
       end.

(** [s.replace(old, new)]: every occurrence, left to right, without
    overlap.  [skip] counts the characters of the occurrence that is being
    replaced and are still to be passed over. *)
Fixpoint replace_go (old new : string) (skip : nat) (s : string) : string :=
  match s with
  | EmptyString =>
      match skip with
      | O => if starts_with old EmptyString then new else EmptyString
      | S _ => EmptyString
      end
  | String c s' =>
      match skip with
      | S k => replace_go old new k s'
      | O =>
          if starts_with old s then
            match length old with
            | O => new ++ String c (replace_go old new 0 s')
            | S k => new ++ replace_go old new k s'
            end
          else String c (replace_go old new 0 s')
      end
  end.

Definition replace (old new s : string) : string := replace_go old new 0 s.

(** [s.split(sep)] for a one-character separator. *)
Fixpoint split (sep : ascii) (s : string) : list string :=
  match s with
  | EmptyString => [EmptyString]
  | String c s' =>
      if Ascii.eqb c sep then EmptyString :: split sep s'
      else match split sep s' with
           | h :: t => String c h :: t
           | [] => [String c EmptyString]
           end
  end.

(** [s.lstrip()], [s.rstrip()], [s.strip()]. *)
Fixpoint lstrip (s : string) : string :=
  match s with
  | String c s' => if is_space c then lstrip s' else s
  | EmptyString => EmptyString
  end.

Fixpoint rstrip (s : string) : string :=
  match s with
  | EmptyString => EmptyString
  | String c s' =>
      match rstrip s' with
      | EmptyString => if is_space c then EmptyString else String c EmptyString
      | r => String c r
      end
  end.

Definition strip (s : string) : string := rstrip (lstrip s).

End Str.

(** ** The fragment of [re] the scripts use *)

Module Re.

Import Chars.

(** Pattern syntax: every repetition in the scripts' patterns is over a
    one-character class. *)
Inductive regex : Type :=
| Eps
| Chr (c : ascii)
| Cls (p : ascii -> bool)
| Star (p : ascii -> bool)
| Plus (p : ascii -> bool)
| LazyStar (p : ascii -> bool)
| WordB
| Grp (r : regex)
| Cat (r1 r2 : regex).

(** The pattern of a literal text. *)
Fixpoint Lit (s : string) : regex :=
  match s with
  | EmptyString => Eps
  | String c s' => Cat (Chr c) (Lit s')
  end.

Definition not_char (c : ascii) : ascii -> bool := fun d => negb (Ascii.eqb d c).

(** What a successful attempt at one position yields: the number of
    characters consumed and the text of group 1, when it took part. *)
Definition hit : Type := nat * option string.

Section Matcher.

Variable R : Type.

(** [p*]: as many as possible first, giving characters back one at a time
    while the rest of the pattern fails. *)
Fixpoint greedy (p : ascii -> bool) (prev : option ascii) (s : string)
    (k : option ascii -> string -> option R) : option R :=
  match s with
  | String c s' =>
      if p c then
        match greedy p (Some c) s' k with
        | Some r => Some r
        | None => k prev s
        end
      else k prev s
  | EmptyString => k prev s
  end.

(** [p*?]: as few as possible first. *)
Fixpoint lazy (p : ascii -> bool) (prev : option ascii) (s : string)
    (k : option ascii -> string -> option R) : option R :=
  match k prev s with
  | Some r => Some r
  | None =>
      match s with
      | String c s' => if p c then lazy p (Some c) s' k else None
      | EmptyString => None
      end
  end.

Definition word_opt (c : option ascii) : bool :=
  match c with Some a => is_word a | None => false end.

Definition head (s : string) : option ascii :=
  match s with String c _ => Some c | EmptyString => None end.

(** [run r prev s g k]: match [r] at the front of [s], where [prev] is the
    character before it ([None] at the start of the text) and [g] the text
    of group 1 so far, then hand over to [k]; the first success in
    backtracking order is the answer. *)
Fixpoint run (r : regex) (prev : option ascii) (s : string) (g : option string)
    (k : option ascii -> string -> option string -> option R) : option R :=
  match r with
  | Eps => k prev s g
  | Chr c =>
      match s with
      | String d s' => if Ascii.eqb c d then k (Some d) s' g else None
      | EmptyString => None
      end
  | Cls p =>
      match s with
      | String d s' => if p d then k (Some d) s' g else None
      | EmptyString => None
      end
  | Star p => greedy p prev s (fun prev' s' => k prev' s' g)
  | Plus p =>
      match s with
      | String d s' =>
          if p d then greedy p (Some d) s' (fun prev' s' => k prev' s' g)
          else None
      | EmptyString => None
      end
  | LazyStar p => lazy p prev s (fun prev' s' => k prev' s' g)
  | WordB =>
      if xorb (word_opt prev) (word_opt (head s)) then k prev s g else None
  | Grp r1 =>
      run r1 prev s g
        (fun prev' s' _ =>
           k prev' s' (Some (Str.take (length s - length s') s)))
  | Cat r1 r2 =>
      run r1 prev s g (fun prev' s' g' => run r2 prev' s' g' k)
  end.

End Matcher.

Arguments greedy {R}.
Arguments lazy {R}.
Arguments run {R}.

(** One attempt at the current position. *)
Definition match_at (r : regex) (prev : option ascii) (s : string) : option hit :=
  run r prev s None (fun _ s' g => Some (length s - length s', g)).

(** A match object: [start()], [end()], [group(0)], [group(1)]. *)
Record match_obj : Type := MatchObj {
  m_start : nat;
  m_end : nat;
  group0 : string;
  group1 : option string
}.

Definition mk_match (pos : nat) (s : string) (h : hit) : match_obj :=
  MatchObj pos (pos + fst h) (Str.take (fst h) s) (snd h).

(** [re.search]: the attempt is made at every position from the left,
    the end of the text included. *)
Fixpoint search_from (r : regex) (prev : option ascii) (pos : nat) (s : string)
    : option match_obj :=
  match match_at r prev s with
  | Some h => Some (mk_match pos s h)
  | None =>
      match s with
      | String c s' => search_from r (Some c) (S pos) s'
      | EmptyString => None
      end
  end.

Definition search (r : regex) (s : string) : option match_obj :=
  search_from r None 0 s.

(** [re.finditer]: the matches from left to right, each attempt starting
    where the previous match ended.  [skip] counts the characters of the
    previous match still to be passed over.  No pattern of the scripts
    matches the empty text, so a match always consumes a character. *)
Fixpoint finditer_from (r : regex) (prev : option ascii) (pos skip : nat)
    (s : string) : list match_obj :=
  match s with
  | EmptyString =>
      match skip with
      | O => match match_at r prev s with
             | Some h => [mk_match pos s h]
             | None => []
             end
      | S _ => []
      end
  | String c s' =>
      match skip with
      | S k => finditer_from r (Some c) (S pos) k s'
      | O =>
          match match_at r prev s with
          | Some h =>
              mk_match pos s h :: finditer_from r (Some c) (S pos) (fst h - 1) s'
          | None => finditer_from r (Some c) (S pos) 0 s'
          end
      end
  end.

Definition finditer (r : regex) (s : string) : list match_obj :=
  finditer_from r None 0 0 s.

(** [re.sub(r, repl, s)] for a replacement text without backslash. *)
Fixpoint sub_from (r : regex) (repl : string) (prev : option ascii) (skip : nat)
    (s : string) : string :=
  match s with
  | EmptyString =>
      match skip with
      | O => match match_at r prev s with
             | Some _ => repl
             | None => EmptyString
             end
      | S _ => EmptyString
      end
  | String c s' =>
      match skip with
      | S k => sub_from r repl (Some c) k s'
      | O =>
          match match_at r prev s with
          | Some h =>
              match fst h with
              | O => repl ++ String c (sub_from r repl (Some c) 0 s')
              | S k => repl ++ sub_from r repl (Some c) k s'
              end
          | None => String c (sub_from r repl (Some c) 0 s')
          end
      end
  end.

Definition sub (r : regex) (repl s : string) : string :=
  sub_from r repl None 0 s.

End Re.

(** ** fix_enum_decorators.py *)

Module EnumFixer.

Import Chars Str Re.

Definition nls : string := String nl EmptyString.

Definition seq (rs : list regex) : regex := fold_right Cat Eps rs.

Definition is_quote (c : ascii) : bool :=
  Ascii.eqb c "'"%char || Ascii.eqb c dquote.

Definition FILES : list string :=
  [ "apps/api/src/modules/subscription/usage/dto/usage.dto.ts";
    "apps/api/src/modules/automation/dto/automation-settings.dto.ts";
    "apps/api/src/modules/crm/dto/client.dto.ts";
    "apps/api/src/modules/finance/invoices/dto/create-invoice.dto.ts";
    "apps/api/src/modules/finance/invoices/dto/invoice-query.dto.ts";
    "apps/api/src/modules/hr/leave/dto/create-leave-request.dto.ts";
    "apps/api/src/modules/hr/leave/dto/leave-query.dto.ts";
    "apps/api/src/modules/documents/dto/create-document.dto.ts";
    "apps/api/src/modules/documents/dto/update-document.dto.ts";
    "apps/api/src/modules/onboarding/dto/update-progress.dto.ts";
    "apps/api/src/modules/finance/invoices/reminders/dto/payment-reminder.dto.ts";
    "apps/api/src/modules/avalara/dto/nexus.dto.ts";
    "apps/api/src/modules/avalara/dto/tax-exemption.dto.ts" ].

(** *** The patterns of [fix_file] *)

(** [import\s*{([^}]+)}\s*from\s*'@prisma/client'] *)
Definition prisma_import_re : regex :=
  seq [ Lit "import"; Star is_space; Chr "{"; Grp (Plus (not_char "}"));
        Chr "}"; Star is_space; Lit "from"; Star is_space;
        Lit "'@prisma/client'" ].

(** [\bIsIn\b] *)
Definition isin_re : regex := seq [ WordB; Lit "IsIn"; WordB ].

(** [(import\s*{[^}]+})\s*from\s*'class-validator';] *)
Definition validator_import_re : regex :=
  seq [ Grp (seq [ Lit "import"; Star is_space; Chr "{";
                   Plus (not_char "}"); Chr "}" ]);
        Star is_space; Lit "from"; Star is_space;
        Lit "'class-validator';" ].

(** [import\s+[^;]+from\s+Q[^Q]+Q;] where [Q] stands for the class of the
    single and the double quote. *)
Definition import_stmt_re : regex :=
  seq [ Lit "import"; Plus is_space; Plus (not_char ";"); Lit "from";
        Plus is_space; Cls is_quote; Plus (fun c => negb (is_quote c));
        Cls is_quote; Chr ";" ].

(** A name is spliced into the two patterns of step 3 as it stands.  It
    denotes itself there when it holds no pattern metacharacter; the model
    covers those names. *)
Definition plain (name : string) : bool :=
  forallb (fun c => negb (is_meta c)) (list_ascii_of_string name).

(** [@IsEnum\(NAME\)] *)
Definition simple_re (enum_name : string) : regex :=
  seq [ Lit "@IsEnum("; Lit enum_name; Lit ")" ].

(** [@IsEnum\(NAME,\s*{\s*each:\s*true\s*}\)] *)
Definition array_re (enum_name : string) : regex :=
  seq [ Lit "@IsEnum("; Lit enum_name; Chr ","; Star is_space; Chr "{";
        Star is_space; Lit "each:"; Star is_space; Lit "true";
        Star is_space; Lit "})" ].

Definition simple_repl (enum_name : string) : string :=
  "@IsIn(" ++ enum_name ++ "Values)".

Definition array_repl (enum_name : string) : string :=
  "@IsIn(" ++ enum_name ++ "Values, { each: true })".

(** *** The steps of [fix_file] on the text *)

Definition marker : string := "from '@prisma/client'".

(** [match.group(1)] of a pattern whose group 1 always takes part. *)
Definition group (m : match_obj) : string :=
  match group1 m with Some g => g | None => EmptyString end.

(** [[name.strip() for name in ....group(1).split(',')]] *)
Definition prisma_enums (m : match_obj) : list string :=
  map strip (split "," (group m)).

(** The loop that fills [enums_to_fix]. *)
Definition enums_to_fix (names : list string) (content : string) : list string :=
  filter (fun enum_name => contains ("@IsEnum(" ++ enum_name) content) names.

(** Step 1: add [IsIn] to the class-validator import. *)
Definition add_isin_import (content : string) : string :=
  match search isin_re content with
  | Some _ => content
  | None =>
      match search validator_import_re content with
      | Some m =>
          let old_import := group0 m in
          let new_import :=
            replace "} from 'class-validator';"
                    ("  IsIn," ++ nls ++ "} from 'class-validator';")
                    old_import in
          replace_first old_import new_import content
      | None => content
      end
  end.

(** The loop over [re.finditer] that keeps the last match. *)
Definition last_import_match (content : string) : option match_obj :=
  fold_left (fun _ m => Some m) (finditer import_stmt_re content) None.

Definition header : string :=
  nls ++ "// Define values for validation" ++ nls.

Definition declaration (enum_name : string) : string :=
  "const " ++ enum_name ++ "Values = Object.values(" ++ enum_name
  ++ ") as string[];" ++ nls.

(** The loop that builds [constants]. *)
Definition constants (enums : list string) (content : string) : string :=
  fold_left
    (fun acc enum_name =>
       if negb (contains ("const " ++ enum_name ++ "Values") content)
       then acc ++ declaration enum_name
       else acc)
    enums header.

(** Step 2: add the value constants after the last import. *)
Definition add_constants (enums : list string) (content : string) : string :=
  match last_import_match content with
  | Some m =>
      let insert_pos := m_end m in
      let cs := constants enums content in
      if negb (String.eqb (strip cs) "// Define values for validation")
      then take insert_pos content ++ cs ++ drop insert_pos content
      else content
  | None => content
  end.

(** Step 3: the two substitutions, for each name in turn. *)
Definition replace_enum (content enum_name : string) : string :=
  let content := sub (simple_re enum_name) (simple_repl enum_name) content in
  sub (array_re enum_name) (array_repl enum_name) content.

Definition replace_decorators (enums : list string) (content : string) : string :=
  fold_left replace_enum enums content.

(** What [fix_file] decides for a text that was read. *)
Inductive outcome : Type :=
| Skip (reason : string)
| Fixed (content : string).

(** The part of [fix_file] between [read_text] and [write_text].  [None]:
    a selected name holds a pattern metacharacter (see [plain]). *)
Definition fix_content (content : string) : option outcome :=
  if negb (contains marker content) then Some (Skip "no Prisma imports")
  else
    match search prisma_import_re content with
    | None => Some (Skip "no Prisma enum imports")
    | Some prisma_import_match =>
        let enums := enums_to_fix (prisma_enums prisma_import_match) content in
        match enums with
        | [] => Some (Skip "no @IsEnum with Prisma enums")
        | _ :: _ =>
            if forallb plain enums then
              let content := add_isin_import content in
              let content := add_constants enums content in
              let content := replace_decorators enums content in
              Some (Fixed content)
            else None
        end
    end.

(** *** The files and the console *)

(** The regular files by path, the calls of [write_text] so far and the
    lines printed so far, both oldest first. *)
Record world : Type := World {
  files : list (string * string);
  written : list (string * string);
  stdout : list string
}.

Fixpoint lookup (path : string) (fs : list (string * string)) : option string :=
  match fs with
  | [] => None
  | (p, c) :: fs' => if String.eqb p path then Some c else lookup path fs'
  end.

Fixpoint store (path content : string) (fs : list (string * string))
    : list (string * string) :=
  match fs with
  | [] => [(path, content)]
  | (p, c) :: fs' =>
      if String.eqb p path then (p, content) :: fs'
      else (p, c) :: store path content fs'
  end.

Definition print (line : string) (w : world) : world :=
  World (files w) (written w) (stdout w ++ [line])%list.

Definition write_text (path content : string) (w : world) : world :=
  World (store path content (files w)) (written w ++ [(path, content)])%list
        (stdout w).

Definition fix_file (filepath : string) (w : world) : option (bool * world) :=
  match lookup filepath (files w) with
  | None => Some (false, print ("SKIP: " ++ filepath ++ " (not found)") w)
  | Some content =>
      match fix_content content with
      | None => None
      | Some (Skip reason) =>
          Some (false, print ("SKIP: " ++ filepath ++ " (" ++ reason ++ ")") w)
      | Some (Fixed content') =>
          Some (true, print ("FIXED: " ++ filepath)
                        (write_text filepath content' w))
      end
  end.

(** [main]: the loop over the paths and the summary line. *)
Fixpoint main_loop (paths : list string) (fixed : nat) (w : world)
    : option (nat * world) :=
  match paths with
  | [] => Some (fixed, w)
  | filepath :: rest =>
      match fix_file filepath w with
      | None => None
      | Some (true, w') => main_loop rest (S fixed) w'
      | Some (false, w') => main_loop rest fixed w'
      end
  end.

Definition main (w : world) : option world :=
  match main_loop FILES 0 w with
  | None => None
  | Some (fixed, w') =>
      Some (print (nls ++ "Fixed "
                   ++ NilEmpty.string_of_uint (Nat.to_uint fixed)
                   ++ " files!") w')
  end.

End EnumFixer.

(** ** fix-ts-errors.py *)

Module BulkFixer.

Import Chars Str Re.

Definition nls : string := String nl EmptyString.

Definition seq (rs : list regex) : regex := fold_right Cat Eps rs.

(** [fix_error_handling]: the pattern and [replace_error] are built and
    the text is returned. *)
Definition fix_error_handling (content : string) : string :=
  let pattern :=
    seq [ Lit "catch (error) {"; Grp (LazyStar (not_char "}"));
          Lit "this.logger.error("; Plus (not_char ","); Chr ",";
          Star is_space; Lit "error.message"; Star (not_char ")");
          Lit "),"; Star is_space; Lit "error.stack" ] in
  let replace_error := fun m : match_obj =>
    let body := match group1 m with Some b => b | None => EmptyString end in
    "catch (error) {" ++ nls
    ++ "      const err = error instanceof Error ? error : new Error(String(error));"
    ++ body ++ "this.logger.error(... err.message ...), err.stack" in
  content.

(** The loop of [fix_class_properties]; [prev] is the line before, as it
    was read. *)
Fixpoint fix_lines (prev : option string) (lines : list string) : list string :=
  match lines with
  | [] => []
  | line :: rest =>
      let line' :=
        match prev with
        | Some before =>
            if starts_with "@" (strip before) then
              if contains ":" line && negb (contains "=" line)
                 && negb (contains "!" line)
              then replace_first ":" "!:" line
              else line
            else line
        | None => line
        end in
      line' :: fix_lines (Some line) rest
  end.

(** [fix_class_properties]. *)
Definition fix_class_properties (content : string) : string :=
  String.concat nls (fix_lines None (split nl content)).

(** An exception object; [exn_text] is what [str(e)] gives. *)
Record exn : Type := Exn { exn_text : string }.

(** A file of the tree: its text, or the exception that opening or
    decoding it raises; and the exception that opening it for writing
    raises, if any. *)
Record entry : Type := Entry {
  on_read : string + exn;
  on_write : option exn
}.

Record world : Type := World {
  files : list (string * entry);
  written : list (string * string);
  stdout : list string;
  stderr : list string
}.

(** The state after a block of statements: it ran to its end, or an
    exception left it. *)
Inductive result : Type :=
| Ok (w : world)
| Raise (e : exn) (w : world).

Fixpoint lookup (path : string) (fs : list (string * entry)) : option entry :=
  match fs with
  | [] => None
  | (p, x) :: fs' => if String.eqb p path then Some x else lookup path fs'
  end.

Fixpoint store (path content : string) (fs : list (string * entry))
    : list (string * entry) :=
  match fs with
  | [] => [(path, Entry (inl content) None)]
  | (p, x) :: fs' =>
      if String.eqb p path then (p, Entry (inl content) (on_write x)) :: fs'
      else (p, x) :: store path content fs'
  end.

Definition print (line : string) (w : world) : world :=
  World (files w) (written w) (stdout w ++ [line])%list (stderr w).

Definition eprint (line : string) (w : world) : world :=
  World (files w) (written w) (stdout w) (stderr w ++ [line])%list.

(** [open(ts_file, 'r', encoding='utf-8')] followed by [f.read()]. *)
Definition read (path : string) (w : world) : string + exn :=
  match lookup path (files w) with
  | Some x => on_read x
  | None => inr (Exn ("[Errno 2] No such file or directory: '" ++ path ++ "'"))
  end.

(** [open(ts_file, 'w', encoding='utf-8')] followed by [f.write(content)]. *)
Definition write (path content : string) (w : world) : result :=
  match lookup path (files w) with
  | Some (Entry _ (Some e)) => Raise e w
  | _ =>
      Ok (World (store path content (files w))
                (written w ++ [(path, content)])%list (stdout w) (stderr w))
  end.

(** The body of the [try] block of [main]; the two calls of the
    transformation functions are comments in the source. *)
Definition try_block (ts_file : string) (w : world) : result :=
  match read ts_file w with
  | inr e => Raise e w
  | inl content =>
      let original := content in
      if negb (String.eqb content original) then
        match write ts_file content w with
        | Ok w' => Ok (print ("Fixed: " ++ ts_file) w')
        | Raise e w' => Raise e w'
        end
      else Ok w
  end.

(** One turn of the loop of [main]. *)
Definition loop_body (w : world) (ts_file : string) : world :=
  if contains "node_modules" ts_file then w
  else
    match try_block ts_file w with
    | Ok w' => w'
    | Raise e w' =>
        eprint ("Error processing " ++ ts_file ++ ": " ++ exn_text e) w'
    end.

(** [main], given what [base_path.rglob('*.ts')] enumerates. *)
Definition main (rglob : list string) (w : world) : world :=
  fold_left loop_body rglob w.

End BulkFixer.

(** ** Sample inputs *)

Module Samples.

Import Chars Str Re.

Definition nls : string := String nl EmptyString.

Definition lines (ls : list string) : string :=
  fold_right (fun l acc => l ++ nls ++ acc) EmptyString ls.

(** A DTO whose only use of the decorator carries a message option. *)
Definition leftover_dto : string :=
  lines [ "import { IsEnum, IsIn } from 'class-validator';";
          "import { Role } from '@prisma/client';";
          "// Define values for validation";
          "const RoleValues = Object.values(Role) as string[];";
          "export class Dto {";
          "  @IsEnum(Role, { message: 'bad role' })";
          "  role: Role;";
          "}" ].

(** A DTO that validates with a local enum whose name extends the name of
    an imported one. *)
Definition prefix_dto : string :=
  lines [ "import { Role } from '@prisma/client';";
          "import { RoleType } from './role-type';";
          "export class Dto {";
          "  @IsEnum(RoleType)";
          "  kind: RoleType;";
          "  role: Role;";
          "}" ].

Definition prefix_dto_fixed : string :=
  lines [ "import { Role } from '@prisma/client';";
          "import { RoleType } from './role-type';";
          "// Define values for validation";
          "const RoleValues = Object.values(Role) as string[];";
          EmptyString;
          "export class Dto {";
          "  @IsEnum(RoleType)";
          "  kind: RoleType;";
          "  role: Role;";
          "}" ].

(** A DTO with the array form written without blanks inside the braces. *)
Definition tight_dto : string :=
  lines [ "import { Status } from '@prisma/client';";
          "export class Dto {";
          "  @IsEnum(Status, {each:true})";
          "  all: Status[];";
          "}" ].


(** A DTO without any class-validator import. *)
Definition bare_dto : string :=
  lines [ "import { Status } from '@prisma/client';";
          "export class Dto {";
          "  @IsEnum(Status)";
          "  one: Status;";
          "}" ].


Definition bare_dto_fixed : string :=
  lines [ "import { Status } from '@prisma/client';";
          "// Define values for validation";
          "const StatusValues = Object.values(Status) as string[];";
          EmptyString;
          "export class Dto {";
          "  @IsIn(StatusValues)";
          "  one: Status;";
          "}" ].

(** A DTO with a multi-line class-validator import and a use of the
    decorator that step 3 does not recognise. *)
Definition guarded_dto : string :=
  lines [ "import {";
          "  IsEnum,";
          "} from 'class-validator';";
          "import { Status } from '@prisma/client';";
          "export class Dto {";
          "  @IsEnum(Status)";
          "  one: Status;";
          "  @IsEnum(Status, { message: 'bad status' })";
          "  two: Status;";
          "}" ].

Definition guarded_dto_fixed : string :=
  lines [ "import {";
          "  IsEnum,";
          "  IsIn,";
          "} from 'class-validator';";
          "import { Status } from '@prisma/client';";
          "// Define values for validation";
          "const StatusValues = Object.values(Status) as string[];";
          EmptyString;
          "export class Dto {";
          "  @IsIn(StatusValues)";
          "  one: Status;";
          "  @IsEnum(Status, { message: 'bad status' })";
          "  two: Status;";
          "}" ].





Definition dto_path : string := "apps/api/src/modules/crm/dto/client.dto.ts".

Definition enum_world (content : string) : EnumFixer.world :=
  EnumFixer.World [(dto_path, content)] [] [].

(** A tree for the bulk fixer: a readable file, a file that cannot be
    decoded, a file under the dependency directory. *)
Definition decode_error : BulkFixer.exn :=
  BulkFixer.Exn "'utf-8' codec can't decode byte 0xff".

Definition bulk_world : BulkFixer.world :=
  BulkFixer.World
    [ ("src/a.ts", BulkFixer.Entry (inl "catch (error) { }") None);
      ("src/b.ts", BulkFixer.Entry (inr decode_error) None);
      ("src/node_modules/c.ts", BulkFixer.Entry (inl "x: number;") None) ]
    [] [] [].

End Samples.

(** * Notions used in the statements and in their proofs *)

Section Notions.

Import Chars Str Re EnumFixer.

(** The texts [rstrip] empties are the blank ones. *)
Definition blank (s : string) : bool :=
  forallb is_space (list_ascii_of_string s).

(** The names of [enums] that have no constant in [content] yet. *)
Definition lacking (enums : list string) (content : string) : list string :=
  filter (fun enum_name =>
            negb (contains ("const " ++ enum_name ++ "Values") content))
         enums.

Definition join (ls : list string) : string :=
  fold_right append EmptyString ls.

(** Patterns without [\b] do not look at the character before them. *)
Fixpoint blind (r : regex) : bool :=
  match r with
  | WordB => false
  | Grp r1 => blind r1
  | Cat r1 r2 => blind r1 && blind r2
  | _ => true
  end.

(** Continuations that do not look at the character before them. *)
Definition steady2 {R : Type} (k : option ascii -> string -> option R) : Prop :=
  forall p q s, k p s = k q s.

Definition steady {R : Type} (k : option ascii -> string -> option string -> option R)
    : Prop :=
  forall p q s g, k p s g = k q s g.

(** [eats r a s]: in front of [s], the pattern [r] consumes the text [a]
    whenever what follows in the pattern accepts [s]. *)
Definition eats (r : regex) (a s : string) : Prop :=
  forall (R : Type) (k : option ascii -> string -> option string -> option R)
         (x : R) (p : option ascii) (g : option string),
    steady k -> k None s g = Some x -> run r p (a ++ s) g k = Some x.

(** [r] can only match at a character [a]. *)
Definition opens_with (r : regex) (a : ascii) : Prop :=
  forall (p : option ascii) (c : ascii) (s : string),
    Ascii.eqb a c = false -> match_at r p (String c s) = None.

Definition lacks (a : ascii) (s : string) : bool :=
  forallb (fun c => negb (Ascii.eqb a c)) (list_ascii_of_string s).

(** Names made of word characters. *)
Definition identifier (name : string) : bool :=
  forallb is_word (list_ascii_of_string name).

(** The array form of the decorator call, with the blanks the pattern of
    step 3 admits. *)
Definition array_usage (enum_name w1 w2 w3 w4 : string) : string :=
  "@IsEnum(" ++ enum_name ++ "," ++ w1 ++ "{" ++ w2 ++ "each:" ++ w3
  ++ "true" ++ w4 ++ "})".

Definition all_in (P : ascii -> bool) (s : string) : bool :=
  forallb P (list_ascii_of_string s).

(** The texts a pattern can consume, the conditions of [\b] on the
    neighbouring characters left out. *)
Fixpoint lang (r : regex) (a : string) : Prop :=
  match r with
  | Eps => a = EmptyString
  | Chr c => a = String c EmptyString
  | Cls P => exists c, a = String c EmptyString /\ P c = true
  | Star P => all_in P a = true
  | Plus P => a <> EmptyString /\ all_in P a = true
  | LazyStar P => all_in P a = true
  | WordB => a = EmptyString
  | Grp r1 => lang r1 a
  | Cat r1 r2 => exists a1 a2, a = a1 ++ a2 /\ lang r1 a1 /\ lang r2 a2
  end.

(** The texts the two patterns of a name consume. *)
Definition usage (enum_name m : string) : Prop :=
  m = "@IsEnum(" ++ enum_name ++ ")"
  \/ exists w1 w2 w3 w4,
       blank w1 = true /\ blank w2 = true /\ blank w3 = true
       /\ blank w4 = true /\ m = array_usage enum_name w1 w2 w3 w4.

(** The two patterns of a name. *)
Definition usage_re (enum_name : string) (r : regex) : Prop :=
  r = simple_re enum_name \/ r = array_re enum_name.

(** The two replacement texts of a name. *)
Definition usage_repl (enum_name repl : string) : Prop :=
  repl = simple_repl enum_name \/ repl = array_repl enum_name.

(** How [re.sub] goes through a text: a character where no match starts
    is copied, a match is replaced and the scan goes on behind it. *)
Inductive rewrites (r : regex) (repl : string) : string -> string -> Prop :=
| rw_nil : rewrites r repl EmptyString EmptyString
| rw_copy (c : ascii) (t t' : string) :
    match_at r None (String c t) = None ->
    rewrites r repl t t' ->
    rewrites r repl (String c t) (String c t')
| rw_hit (c : ascii) (m t t' : string) (g : option string) :
    match_at r None (String c m ++ t) = Some (S (length m), g) ->
    lang r (String c m) ->
    rewrites r repl t t' ->
    rewrites r repl (String c m ++ t) (repl ++ t').

(** [r] matches nowhere in the text. *)
Definition mfree (r : regex) (s : string) : Prop :=
  forall u v p, s = u ++ v -> match_at r p v = None.

(** The text by which step 2 recognises the constant of a name. *)
Definition const_text (enum_name : string) : string :=
  "const " ++ enum_name ++ "Values".

(** The letter [t] followed by a blank of code 32, by a scan that
    remembers whether the last character was a [t]. *)
Fixpoint tsp (after_t : bool) (s : string) : bool :=
  match s with
  | EmptyString => false
  | String c s' => (after_t && Ascii.eqb c " ") || tsp (Ascii.eqb c "t") s'
  end.

Fixpoint tstate (after_t : bool) (s : string) : bool :=
  match s with
  | EmptyString => after_t
  | String c s' => tstate (Ascii.eqb c "t") s'
  end.

(** Whether [re.search] finds a match, from the current position on. *)
Fixpoint finds (r : regex) (p : option ascii) (s : string) : bool :=
  match match_at r p s with
  | Some _ => true
  | None =>
      match s with
      | String c s' => finds r (Some c) s'
      | EmptyString => false
      end
  end.

(** One attempt of [\bIsIn\b], spelled out. *)
Definition token_at (p : option ascii) (s : string) : bool :=
  negb (word_opt p) && starts_with "IsIn" s
  && negb (word_opt (head (drop 4 s))).

(** The characters of a text other than [c], in order. *)
Definition letters_but (c : ascii) (s : string) : list ascii :=
  filter (fun d => negb (Ascii.eqb d c)) (list_ascii_of_string s).

(** The two tests of the loop of [fix_class_properties]: the line before
    starts, blanks apart, with [@]; the line has a colon, no [=] and no
    [!]. *)
Definition decorated (prev : option string) : bool :=
  match prev with
  | Some before => Str.starts_with "@" (Str.strip before)
  | None => false
  end.

Definition bare_property (line : string) : bool :=
  Str.contains ":" line && negb (Str.contains "=" line)
  && negb (Str.contains "!" line).




End Notions.

(** * Properties of the bulk fixer *)

Section BulkFixerFacts.

Import Str BulkFixer.

(** C9. [fix_error_handling] returns its argument, whatever the text: the
    pattern and the replacement function it builds are never applied. *)
Theorem fix_error_handling_identity :
  forall content : string, fix_error_handling content = content.
Proof.
  intro content. unfold fix_error_handling. reflexivity.
Qed.

Lemma print_frame (line : string) (w : world) :
  files (print line w) = files w /\ written (print line w) = written w
  /\ stderr (print line w) = stderr w.
Proof. unfold print; simpl; auto. Qed.

Lemma eprint_frame (line : string) (w : world) :
  files (eprint line w) = files w /\ written (eprint line w) = written w
  /\ stdout (eprint line w) = stdout w.
Proof. unfold eprint; simpl; auto. Qed.

(** The [try] block never reaches its [if]: the text compared is the text
    read. *)
Lemma try_block_cases (ts_file : string) (w : world) :
  (exists content, read ts_file w = inl content /\ try_block ts_file w = Ok w)
  \/ (exists e, read ts_file w = inr e /\ try_block ts_file w = Raise e w).
Proof.
  unfold try_block. destruct (read ts_file w) as [content | e].
  - left. exists content. rewrite String.eqb_refl. simpl. auto.
  - right. exists e. auto.
Qed.

Lemma loop_body_frame (w : world) (ts_file : string) :
  files (loop_body w ts_file) = files w
  /\ written (loop_body w ts_file) = written w
  /\ stdout (loop_body w ts_file) = stdout w.
Proof.
  unfold loop_body. destruct (contains "node_modules" ts_file); auto.
  destruct (try_block_cases ts_file w) as [[c [_ H]] | [e [_ H]]];
    rewrite H; auto using eprint_frame.
Qed.

(** C8. A run of the bulk fixer over any tree leaves every file as it
    was, writes nothing and prints no line to standard output. *)
Theorem main_is_noop :
  forall (rglob : list string) (w : world),
    files (main rglob w) = files w
    /\ written (main rglob w) = written w
    /\ stdout (main rglob w) = stdout w.
Proof.
  intros rglob. unfold main.
  induction rglob as [| f rest IH]; intro w; simpl; auto.
  destruct (IH (loop_body w f)) as [Hf [Hw Ho]].
  destruct (loop_body_frame w f) as [Hf' [Hw' Ho']].
  repeat split; congruence.
Qed.

Lemma main_app (l1 l2 : list string) (w : world) :
  main (l1 ++ l2)%list w = main l2 (main l1 w).
Proof. unfold main. apply fold_left_app. Qed.

(** C7. When the [try] block of a file raises, the exception is caught,
    one line naming the file and the exception goes to standard error, and
    the loop goes on with the files that follow. *)
Theorem main_survives_exception :
  forall (before after : list string) (ts_file : string) (w w' : world)
         (e : exn),
    contains "node_modules" ts_file = false ->
    try_block ts_file (main before w) = Raise e w' ->
    main (before ++ ts_file :: after)%list w
    = main after
        (eprint ("Error processing " ++ ts_file ++ ": " ++ exn_text e) w').
Proof.
  intros before after ts_file w w' e Hdep Hraise.
  rewrite main_app. unfold main at 1. simpl.
  unfold loop_body at 2. rewrite Hdep, Hraise. reflexivity.
Qed.

End BulkFixerFacts.

Lemma main_survives_exception_witness :
  Str.contains "node_modules" "src/b.ts" = false
  /\ BulkFixer.try_block "src/b.ts"
       (BulkFixer.main ["src/a.ts"] Samples.bulk_world)
     = BulkFixer.Raise Samples.decode_error Samples.bulk_world
  /\ BulkFixer.main (["src/a.ts"] ++ "src/b.ts" :: ["src/c.ts"])%list
       Samples.bulk_world
     = BulkFixer.main ["src/c.ts"]
         (BulkFixer.eprint
            ("Error processing " ++ "src/b.ts" ++ ": "
             ++ BulkFixer.exn_text Samples.decode_error)
            Samples.bulk_world).
Proof.
  split; [reflexivity |]. split; [reflexivity |].
  apply main_survives_exception; reflexivity.
Defined.

(** * Properties of the targeted decorator fixer *)

Section SkipAndWrite.

Import Str Re EnumFixer.

Lemma print_frame_enum (line : string) (w : world) :
  files (print line w) = files w /\ written (print line w) = written w
  /\ stdout (print line w) = (stdout w ++ [line])%list.
Proof. unfold print; simpl; auto. Qed.


(** The text that [fix_file] hands to [write_text]. *)
Lemma fix_content_fixed (content : string) (m : match_obj) :
  contains marker content = true ->
  search prisma_import_re content = Some m ->
  enums_to_fix (prisma_enums m) content <> [] ->
  forallb plain (enums_to_fix (prisma_enums m) content) = true ->
  fix_content content
  = Some (Fixed
            (replace_decorators (enums_to_fix (prisma_enums m) content)
               (add_constants (enums_to_fix (prisma_enums m) content)
                  (add_isin_import content)))).
Proof.
  intros Hmark Hm Hsel Hplain. unfold fix_content.
  rewrite Hmark, Hm. simpl.
  destruct (enums_to_fix (prisma_enums m) content) as [| e es] eqn:E.
  - contradiction.
  - rewrite Hplain. reflexivity.
Qed.

(** C1 (amended). A file that passes every skip check is written back and
    reported FIXED whether or not a step altered its text: [write_text]
    is called once with the text the three steps leave, and [fix_file]
    returns [True]. *)
Theorem passing_file_always_written :
  forall (filepath content : string) (w : world) (m : match_obj),
    lookup filepath (files w) = Some content ->
    contains marker content = true ->
    search prisma_import_re content = Some m ->
    enums_to_fix (prisma_enums m) content <> [] ->
    forallb plain (enums_to_fix (prisma_enums m) content) = true ->
    exists (final : string) (w' : world),
      fix_file filepath w = Some (true, w')
      /\ final = replace_decorators (enums_to_fix (prisma_enums m) content)
                   (add_constants (enums_to_fix (prisma_enums m) content)
                      (add_isin_import content))
      /\ written w' = (written w ++ [(filepath, final)])%list
      /\ files w' = store filepath final (files w)
      /\ stdout w' = (stdout w ++ [("FIXED: " ++ filepath)%string])%list.
Proof.
  intros filepath content w m Hfile Hmark Hm Hsel Hplain.
  unfold fix_file. rewrite Hfile.
  rewrite (fix_content_fixed content m Hmark Hm Hsel Hplain).
  eexists. eexists. split; [reflexivity |]. simpl. auto.
Qed.

End SkipAndWrite.


(** C1, as stated, fails on [Samples.leftover_dto]: the file passes every
    skip check, none of the three steps alters its text, and it is written
    back and reported FIXED all the same. *)
Lemma unchanged_file_still_written :
  EnumFixer.add_isin_import Samples.leftover_dto = Samples.leftover_dto
  /\ EnumFixer.add_constants ["Role"] Samples.leftover_dto = Samples.leftover_dto
  /\ EnumFixer.replace_decorators ["Role"] Samples.leftover_dto
     = Samples.leftover_dto
  /\ EnumFixer.fix_file Samples.dto_path
       (Samples.enum_world Samples.leftover_dto)
     = Some (true,
             EnumFixer.World
               [(Samples.dto_path, Samples.leftover_dto)]
               [(Samples.dto_path, Samples.leftover_dto)]
               [("FIXED: " ++ Samples.dto_path)%string]).
Proof. repeat split; vm_compute; reflexivity. Qed.

Lemma passing_file_always_written_witness :
  exists (final : string) (w' : EnumFixer.world),
    EnumFixer.fix_file Samples.dto_path (Samples.enum_world Samples.leftover_dto)
    = Some (true, w')
    /\ final = Samples.leftover_dto
    /\ EnumFixer.written w' = [(Samples.dto_path, final)]
    /\ EnumFixer.stdout w' = [("FIXED: " ++ Samples.dto_path)%string].
Proof.
  destruct (passing_file_always_written Samples.dto_path Samples.leftover_dto
              (Samples.enum_world Samples.leftover_dto)
              (Re.MatchObj 48 85 "import { Role } from '@prisma/client'"
                 (Some " Role ")))
    as [final [w' [Hrun [Hfinal [Hwritten [_ Hout]]]]]];
    try (vm_compute; reflexivity).
  - vm_compute. discriminate.
  - exists final, w'. split; [exact Hrun |]. split.
    + rewrite Hfinal. vm_compute. reflexivity.
    + split; [exact Hwritten | exact Hout].
Defined.

(** C2, evaluated on [Samples.prefix_dto]: [Role] is imported from the
    marker package and is the argument of no decorator, the only call being
    [@IsEnum(RoleType)]; it is selected all the same, and a constant for it
    is inserted. *)
Lemma prefix_of_argument_selected :
  Str.contains "@IsEnum(Role)" Samples.prefix_dto = false
  /\ Str.contains "@IsEnum(Role," Samples.prefix_dto = false
  /\ Str.contains "@IsEnum(RoleType)" Samples.prefix_dto = true
  /\ option_map EnumFixer.prisma_enums
       (Re.search EnumFixer.prisma_import_re Samples.prefix_dto)
     = Some ["Role"]
  /\ EnumFixer.enums_to_fix ["Role"] Samples.prefix_dto = ["Role"]
  /\ EnumFixer.fix_content Samples.prefix_dto
     = Some (EnumFixer.Fixed Samples.prefix_dto_fixed).
Proof. repeat split; vm_compute; reflexivity. Qed.


(** * Facts about texts *)

Section StrFacts.

Import Chars Str.

Lemma append_nil_r (s : string) : s ++ EmptyString = s.
Proof. induction s as [| c s IH]; simpl; [reflexivity | now rewrite IH]. Qed.

Lemma append_assoc (a b c : string) : (a ++ b) ++ c = a ++ b ++ c.
Proof. induction a as [| x a IH]; simpl; [reflexivity | now rewrite IH]. Qed.

Lemma length_append (a b : string) : length (a ++ b) = length a + length b.
Proof. induction a as [| x a IH]; simpl; [reflexivity | now rewrite IH]. Qed.

Lemma append_cancel_l (a b c : string) : a ++ b = a ++ c -> b = c.
Proof.
  induction a as [| x a IH]; simpl; intro H; [exact H |].
  injection H as H. auto.
Qed.

Lemma take_append (a b : string) : take (length a) (a ++ b) = a.
Proof. induction a as [| x a IH]; simpl; [now destruct b | now rewrite IH]. Qed.

Lemma drop_append (a b : string) : drop (length a) (a ++ b) = b.
Proof. induction a as [| x a IH]; simpl; [now destruct b | exact IH]. Qed.

Lemma take_drop (n : nat) (s : string) : take n s ++ drop n s = s.
Proof.
  revert s. induction n as [| n IH]; intros [| c s]; simpl; try reflexivity.
  now rewrite IH.
Qed.

Lemma starts_with_append (p s : string) : starts_with p (p ++ s) = true.
Proof.
  induction p as [| c p IH]; simpl; [reflexivity |].
  now rewrite Ascii.eqb_refl, IH.
Qed.

Lemma starts_with_split (p s : string) :
  starts_with p s = true -> s = p ++ drop (length p) s.
Proof.
  revert s. induction p as [| c p IH]; intros s H; simpl in *.
  - now destruct s.
  - destruct s as [| d s]; [discriminate |].
    apply andb_true_iff in H as [Hc Hp].
    apply Ascii.eqb_eq in Hc. subst d. simpl. f_equal. now apply IH.
Qed.

Lemma contains_here (sub s : string) :
  starts_with sub s = true -> contains sub s = true.
Proof. intro H. destruct s; simpl; now rewrite H. Qed.

Lemma contains_later (sub : string) (c : ascii) (s : string) :
  contains sub s = true -> contains sub (String c s) = true.
Proof. intro H. simpl. rewrite H. apply orb_true_r. Qed.

Lemma contains_append (sub a b : string) :
  contains sub (a ++ sub ++ b) = true.
Proof.
  induction a as [| c a IH].
  - apply contains_here. apply (starts_with_append sub b).
  - now apply contains_later.
Qed.

Lemma contains_split (sub s : string) :
  contains sub s = true -> exists a b, s = a ++ sub ++ b.
Proof.
  induction s as [| c s IH]; simpl; intro H.
  - rewrite orb_false_r in H. exists EmptyString, EmptyString.
    destruct sub; [reflexivity | discriminate].
  - apply orb_true_iff in H as [H | H].
    + exists EmptyString, (drop (length sub) (String c s)).
      now apply starts_with_split in H.
    + destruct (IH H) as [a [b E]]. exists (String c a), b.
      simpl. now rewrite E.
Qed.

Lemma rstrip_cons (c : ascii) (s : string) :
  rstrip s <> EmptyString \/ is_space c = false ->
  rstrip (String c s) = String c (rstrip s).
Proof.
  intros H. simpl. destruct (rstrip s) eqn:E.
  - destruct H as [H | H]; [contradiction | now rewrite H].
  - reflexivity.
Qed.

Lemma rstrip_append (a b : string) :
  rstrip b <> EmptyString -> rstrip (a ++ b) = a ++ rstrip b.
Proof.
  intro H. induction a as [| c a IH]; [reflexivity |].
  simpl append. rewrite rstrip_cons.
  - now rewrite IH.
  - left. rewrite IH. destruct a; simpl; [exact H | discriminate].
Qed.

End StrFacts.

(** * Step 2 *)

Section Constants.

Import Chars Str Re EnumFixer.

Lemma keep_last {A : Type} (l : list A) (init : option A) (x : A) :
  fold_left (fun _ y => Some y) l init = Some x ->
  (l = [] /\ init = Some x) \/ exists earlier, l = (earlier ++ [x])%list.
Proof.
  induction l as [| y l' _] using rev_ind; simpl; intro H.
  - left. auto.
  - right. rewrite fold_left_app in H. simpl in H.
    injection H as ->. now exists l'.
Qed.

Lemma constants_fold (enums : list string) (content acc : string) :
  fold_left
    (fun acc enum_name =>
       if negb (contains ("const " ++ enum_name ++ "Values") content)
       then acc ++ declaration enum_name
       else acc)
    enums acc
  = acc ++ join (map declaration (lacking enums content)).
Proof.
  revert acc. induction enums as [| e es IH]; intro acc.
  - simpl. now rewrite append_nil_r.
  - cbn [fold_left]. rewrite IH. unfold lacking. cbn [filter].
    destruct (negb (contains ("const " ++ e ++ "Values") content)).
    + cbn [map join fold_right]. now rewrite append_assoc.
    + reflexivity.
Qed.

Lemma constants_eq (enums : list string) (content : string) :
  constants enums content
  = header ++ join (map declaration (lacking enums content)).
Proof. apply constants_fold. Qed.

Lemma strip_header_plus (e : string) (rest : string) :
  strip (header ++ declaration e ++ rest)
  <> "// Define values for validation".
Proof.
  unfold strip.
  assert (L : lstrip (header ++ declaration e ++ rest)
              = "// Define values for validation"
                ++ String nl (String "c" ("onst " ++ e ++ "Values = Object.values("
                     ++ e ++ ") as string[];" ++ nls ++ rest))).
  { unfold header, declaration, nls. rewrite !append_assoc. reflexivity. }
  rewrite L. rewrite rstrip_append.
  - intro H.
    rewrite <- (append_nil_r "// Define values for validation") in H at 2.
    apply append_cancel_l in H.
    rewrite rstrip_cons in H; [discriminate |].
    left. rewrite rstrip_cons; [discriminate | now right].
  - rewrite rstrip_cons; [discriminate |].
    left. rewrite rstrip_cons; [discriminate | now right].
Qed.

Lemma add_constants_inserts (enums : list string) (content : string)
    (m : match_obj) :
  last_import_match content = Some m ->
  lacking enums content <> [] ->
  add_constants enums content
  = take (m_end m) content
    ++ header
    ++ join (map declaration (lacking enums content))
    ++ drop (m_end m) content.
Proof.
  intros Hlast Hlack.
  unfold add_constants. rewrite Hlast, constants_eq.
  destruct (lacking enums content) as [| e es] eqn:E; [contradiction |].
  cbn [map join fold_right]. fold (join (map declaration es)).
  match goal with
  | |- context [String.eqb ?a ?b] =>
      destruct (String.eqb_spec a b) as [Heq | Hne]
  end.
  - now apply strip_header_plus in Heq.
  - cbn [negb]. now rewrite !append_assoc.
Qed.

Lemma add_constants_nothing_lacking (enums : list string) (content : string) :
  lacking enums content = [] -> add_constants enums content = content.
Proof.
  intro Hl. unfold add_constants.
  destruct (last_import_match content); [| reflexivity].
  rewrite constants_eq, Hl. reflexivity.
Qed.

(** C6. When a name lacks its constant and the text has an import
    statement, [add_constants] takes the last match of the scan for import
    statements and puts, right where that match ends, the comment line
    followed by one declaration for each selected name whose
    [const <Enum>Values] text the file does not hold yet, in the order of
    selection. *)
Theorem constants_after_last_import :
  forall (enums : list string) (content : string) (m : match_obj),
    last_import_match content = Some m ->
    lacking enums content <> [] ->
    (exists earlier,
        finditer import_stmt_re content = (earlier ++ [m])%list)
    /\ add_constants enums content
       = take (m_end m) content
         ++ header
         ++ join (map declaration (lacking enums content))
         ++ drop (m_end m) content.
Proof.
  intros enums content m Hlast Hlack. split.
  - unfold last_import_match in Hlast.
    apply keep_last in Hlast as [[_ H] | H]; [discriminate | exact H].
  - now apply add_constants_inserts.
Qed.

End Constants.

Lemma constants_after_last_import_witness :
  (exists earlier,
      Re.finditer EnumFixer.import_stmt_re Samples.prefix_dto
      = (earlier ++ [Re.MatchObj 39 78
                       "import { RoleType } from './role-type';" None])%list)
  /\ EnumFixer.add_constants ["Role"] Samples.prefix_dto
     = Samples.prefix_dto_fixed.
Proof.
  destruct (constants_after_last_import ["Role"] Samples.prefix_dto
              (Re.MatchObj 39 78 "import { RoleType } from './role-type';"
                 None)) as [Hscan Hins].
  - vm_compute. reflexivity.
  - vm_compute. discriminate.
  - split; [exact Hscan |]. rewrite Hins. vm_compute. reflexivity.
Defined.

(** * Facts about the matcher *)

Section MatcherFacts.

Import Chars Str Re.

Lemma blind_Lit (l : string) : blind (Lit l) = true.
Proof. induction l as [| c l IH]; simpl; auto. Qed.

Section Continuations.

Variable R : Type.

Lemma greedy_steady (c : ascii -> bool) (k : option ascii -> string -> option R) :
  steady2 k -> steady2 (fun p s => greedy c p s k).
Proof.
  intros Hk p q s. revert p q.
  induction s as [| d s IH]; intros p q; simpl.
  - apply Hk.
  - destruct (c d); [| apply Hk]. now rewrite (Hk p q).
Qed.

Lemma lazy_steady (c : ascii -> bool) (k : option ascii -> string -> option R) :
  steady2 k -> steady2 (fun p s => lazy c p s k).
Proof.
  intros Hk p q s. revert p q.
  induction s as [| d s IH]; intros p q; simpl; now rewrite (Hk p q).
Qed.

Lemma run_steady (r : regex) :
  blind r = true ->
  forall k : option ascii -> string -> option string -> option R,
    steady k -> steady (fun p s g => run r p s g k).
Proof.
  induction r as [| c | c | c | c | c | | r1 IH1 | r1 IH1 r2 IH2];
    intros Hb k Hk p q s g; simpl in *.
  - apply Hk.
  - destruct s; reflexivity.
  - destruct s; reflexivity.
  - apply (greedy_steady c (fun p' s' => k p' s' g)). intros x y z. apply Hk.
  - destruct s; reflexivity.
  - apply (lazy_steady c (fun p' s' => k p' s' g)). intros x y z. apply Hk.
  - discriminate.
  - apply (IH1 Hb). intros x y z w. apply Hk.
  - apply andb_true_iff in Hb as [Hb1 Hb2].
    apply (IH1 Hb1). intros x y z w. now apply IH2.
Qed.

(** A literal consumes itself. *)
Lemma run_Lit (l : string) (k : option ascii -> string -> option string -> option R) :
  steady k ->
  forall p s g, run (Lit l) p (l ++ s) g k = k None s g.
Proof.
  intros Hk. induction l as [| c l IH]; intros p s g; simpl.
  - apply Hk.
  - rewrite Ascii.eqb_refl. apply IH.
Qed.

End Continuations.

Lemma eats_Eps (s : string) : eats Eps EmptyString s.
Proof. intros R k x p g Hk Hx. simpl. now rewrite (Hk p None). Qed.

Lemma eats_Lit (l s : string) : eats (Lit l) l s.
Proof. intros R k x p g Hk Hx. now rewrite run_Lit. Qed.

Lemma eats_Chr (c : ascii) (s : string) :
  eats (Chr c) (String c EmptyString) s.
Proof.
  intros R k x p g Hk Hx. simpl. rewrite Ascii.eqb_refl.
  now rewrite (Hk _ None).
Qed.

Lemma eats_blanks (w : string) (d : ascii) (s : string) :
  blank w = true -> is_space d = false ->
  eats (Star is_space) w (String d s).
Proof.
  intros Hw Hd R k x p g Hk Hx. simpl. revert p.
  induction w as [| c w IH]; intro p.
  - simpl. now rewrite Hd, (Hk p None).
  - simpl in Hw. apply andb_true_iff in Hw as [Hc Hw].
    simpl. rewrite Hc. now rewrite (IH Hw).
Qed.

Lemma eats_Cat (r1 r2 : regex) (a b s : string) :
  blind r2 = true ->
  eats r1 a (b ++ s) -> eats r2 b s -> eats (Cat r1 r2) (a ++ b) s.
Proof.
  intros Hb H1 H2 R k x p g Hk Hx. simpl. rewrite append_assoc.
  apply H1.
  - now apply run_steady.
  - now apply H2.
Qed.

(** What [eats] says about one attempt. *)
Lemma eats_match_at (r : regex) (a s : string) (p : option ascii) :
  eats r a s -> match_at r p (a ++ s) = Some (length a, None).
Proof.
  intro H. unfold match_at. apply H.
  - intros x y z w. reflexivity.
  - f_equal. f_equal. rewrite length_append. lia.
Qed.

Lemma match_at_blind (r : regex) (p q : option ascii) (s : string) :
  blind r = true -> match_at r p s = match_at r q s.
Proof.
  intro Hb. unfold match_at.
  apply (run_steady _ r Hb
           (fun _ s' g => Some (length s - length s', g))).
  intros x y z w. reflexivity.
Qed.

Lemma sub_from_blind (r : regex) (repl : string) :
  blind r = true ->
  forall s p q skip, sub_from r repl p skip s = sub_from r repl q skip s.
Proof.
  intros Hb s. induction s as [| c s IH]; intros p q skip; simpl.
  - destruct skip; [| reflexivity]. now rewrite (match_at_blind r p q).
  - destruct skip; [| apply IH]. now rewrite (match_at_blind r p q).
Qed.

(** The characters of a replaced occurrence are passed over. *)
Lemma sub_from_skip (r : regex) (repl : string) :
  blind r = true ->
  forall t s p, sub_from r repl p (length t) (t ++ s) = sub r repl s.
Proof.
  intros Hb t. induction t as [| c t IH]; intros s p.
  - apply sub_from_blind, Hb.
  - simpl. apply IH.
Qed.

Lemma sub_at_match (r : regex) (repl : string) (c : ascii) (t s : string)
    (g : option string) :
  blind r = true ->
  match_at r None (String c t ++ s) = Some (S (length t), g) ->
  sub r repl (String c t ++ s) = repl ++ sub r repl s.
Proof.
  intros Hb Hm. unfold sub at 1. simpl. simpl in Hm. rewrite Hm. simpl.
  now rewrite sub_from_skip.
Qed.

Lemma lacks_append (a : ascii) (s t : string) :
  lacks a (s ++ t) = lacks a s && lacks a t.
Proof.
  unfold lacks. induction s as [| c s IH]; simpl; [reflexivity |].
  now rewrite IH, andb_assoc.
Qed.

Lemma lacks_cons (a c : ascii) (s : string) :
  lacks a (String c s) = negb (Ascii.eqb a c) && lacks a s.
Proof. reflexivity. Qed.

(** A stretch without the opening character is copied. *)
Lemma sub_from_lacking (r : regex) (repl : string) (a : ascii) :
  blind r = true -> opens_with r a ->
  forall t s p,
    lacks a t = true ->
    sub_from r repl p 0 (t ++ s) = t ++ sub r repl s.
Proof.
  intros Hb Ho t. induction t as [| c t IH]; intros s p Ht.
  - apply sub_from_blind, Hb.
  - unfold lacks in Ht. simpl in Ht. apply andb_true_iff in Ht as [Hc Ht].
    apply negb_true_iff in Hc.
    change (String c t ++ s) with (String c (t ++ s)).
    cbn [sub_from]. rewrite (Ho p c _ Hc). cbn [append]. f_equal.
    now apply IH.
Qed.

Lemma eats_Cat_last (r : regex) (a s : string) :
  eats r a s -> eats (Cat r Eps) a s.
Proof.
  intro H. rewrite <- (append_nil_r a).
  apply eats_Cat; [reflexivity | exact H | apply eats_Eps].
Qed.

End MatcherFacts.

(** * Step 3 *)

Section Decorators.

Import Chars Str Re EnumFixer.

Lemma forallb_weaken (P Q : ascii -> bool) (s : string) :
  (forall c, P c = true -> Q c = true) ->
  forallb P (list_ascii_of_string s) = true ->
  forallb Q (list_ascii_of_string s) = true.
Proof.
  intro H. induction s as [| c s IH]; simpl; [reflexivity |].
  intro E. apply andb_true_iff in E as [E1 E2].
  now rewrite (H c E1), IH.
Qed.

Lemma ascii_cases (P : ascii -> bool) :
  forallb P (map ascii_of_nat (List.seq 0 256)) = true ->
  forall c, P c = true.
Proof.
  intros H c. rewrite forallb_forall in H. apply H.
  rewrite <- (ascii_nat_embedding c). apply in_map.
  apply in_seq. pose proof (nat_ascii_bounded c). lia.
Qed.

Lemma word_not_at (c : ascii) : is_word c = true -> negb (Ascii.eqb "@" c) = true.
Proof.
  revert c.
  assert (H : forall c, (negb (is_word c) || negb (Ascii.eqb "@" c)) = true).
  { apply ascii_cases. vm_compute. reflexivity. }
  intros c Hc. specialize (H c). rewrite Hc in H. exact H.
Qed.

Lemma space_not_at (c : ascii) : is_space c = true -> negb (Ascii.eqb "@" c) = true.
Proof.
  revert c.
  assert (H : forall c, (negb (is_space c) || negb (Ascii.eqb "@" c)) = true).
  { apply ascii_cases. vm_compute. reflexivity. }
  intros c Hc. specialize (H c). rewrite Hc in H. exact H.
Qed.

Lemma identifier_lacks_at (name : string) :
  identifier name = true -> lacks "@" name = true.
Proof. apply forallb_weaken, word_not_at. Qed.

Lemma blank_lacks_at (w : string) : blank w = true -> lacks "@" w = true.
Proof. apply forallb_weaken, space_not_at. Qed.

Lemma blind_simple_re (enum_name : string) : blind (simple_re enum_name) = true.
Proof. unfold simple_re, seq. simpl. now rewrite blind_Lit. Qed.

Lemma blind_array_re (enum_name : string) : blind (array_re enum_name) = true.
Proof. unfold array_re, seq. simpl. now rewrite blind_Lit. Qed.

Lemma simple_re_opens (enum_name : string) : opens_with (simple_re enum_name) "@".
Proof.
  intros p c s Hc. unfold match_at, simple_re, seq.
  cbn [fold_right Lit run]. now rewrite Hc.
Qed.

Lemma array_re_opens (enum_name : string) : opens_with (array_re enum_name) "@".
Proof.
  intros p c s Hc. unfold match_at, array_re, seq.
  cbn [fold_right Lit run]. now rewrite Hc.
Qed.


(** The array pattern consumes the array form. *)
Lemma array_re_eats (enum_name w1 w2 w3 w4 s : string) :
  blank w1 = true -> blank w2 = true -> blank w3 = true -> blank w4 = true ->
  eats (array_re enum_name) (array_usage enum_name w1 w2 w3 w4) s.
Proof.
  intros H1 H2 H3 H4. unfold array_re, array_usage, seq. cbn [fold_right].
  repeat first
    [ apply eats_Cat_last
    | apply eats_Cat; [simpl; rewrite ?blind_Lit; reflexivity | | ] ];
    try apply eats_Lit; try apply eats_Chr;
    cbn [append]; apply eats_blanks; auto.
Qed.



End Decorators.

(** * What a match consumes *)

Section Language.

Import Chars Str Re.

(** A successful [greedy] or [lazy] hands the rest behind a run of
    characters of the class to its continuation. *)
Lemma greedy_sound (R : Type) (P : ascii -> bool)
    (k : option ascii -> string -> option R) (x : R) :
  forall s p,
    greedy P p s k = Some x ->
    exists a s' p', s = a ++ s' /\ all_in P a = true /\ k p' s' = Some x.
Proof.
  induction s as [| c s IH]; intros p H; simpl in H.
  - exists EmptyString, EmptyString, p. auto.
  - destruct (P c) eqn:Hc.
    + destruct (greedy P (Some c) s k) as [y |] eqn:Hg.
      * injection H as ->.
        destruct (IH _ Hg) as [a [s' [p' [Hs [Ha Hk]]]]].
        exists (String c a), s', p'. subst s. repeat split; auto.
        unfold all_in in *. simpl. now rewrite Hc.
      * exists EmptyString, (String c s), p. auto.
    + exists EmptyString, (String c s), p. auto.
Qed.

Lemma lazy_sound (R : Type) (P : ascii -> bool)
    (k : option ascii -> string -> option R) (x : R) :
  forall s p,
    lazy P p s k = Some x ->
    exists a s' p', s = a ++ s' /\ all_in P a = true /\ k p' s' = Some x.
Proof.
  induction s as [| c s IH]; intros p H; simpl in H.
  - destruct (k p EmptyString) eqn:Hk; [| discriminate].
    exists EmptyString, EmptyString, p. split; [reflexivity |].
    split; [reflexivity | congruence].
  - destruct (k p (String c s)) eqn:Hk.
    + exists EmptyString, (String c s), p. split; [reflexivity |].
      split; [reflexivity | congruence].
    + destruct (P c) eqn:Hc; [| discriminate].
      destruct (IH _ H) as [a [s' [p' [Hs [Ha Hk']]]]].
      exists (String c a), s', p'. subst s. repeat split; auto.
      unfold all_in in *. simpl. now rewrite Hc.
Qed.

Lemma run_sound (R : Type) (r : regex) :
  forall (k : option ascii -> string -> option string -> option R) (x : R)
         (p : option ascii) (s : string) (g : option string),
    run r p s g k = Some x ->
    exists a s' p' g', s = a ++ s' /\ lang r a /\ k p' s' g' = Some x.
Proof.
  induction r as [| c | P | P | P | P | | r1 IH1 | r1 IH1 r2 IH2];
    intros k x p s g H; simpl in H.
  - exists EmptyString, s, p, g. simpl. auto.
  - destruct s as [| d s]; [discriminate |].
    destruct (Ascii.eqb_spec c d) as [<- | _]; [| discriminate].
    exists (String c EmptyString), s, (Some c), g. simpl. auto.
  - destruct s as [| d s]; [discriminate |].
    destruct (P d) eqn:Hd; [| discriminate].
    exists (String d EmptyString), s, (Some d), g. simpl.
    split; [reflexivity |]. split; [| exact H]. now exists d.
  - apply greedy_sound in H as [a [s' [p' [Hs [Ha Hk]]]]].
    exists a, s', p', g. auto.
  - destruct s as [| d s]; [discriminate |].
    destruct (P d) eqn:Hd; [| discriminate].
    apply greedy_sound in H as [a [s' [p' [Hs [Ha Hk]]]]].
    exists (String d a), s', p', g. subst s. simpl.
    split; [reflexivity |]. split; [| exact Hk].
    split; [discriminate |]. unfold all_in in *. simpl. now rewrite Hd.
  - apply lazy_sound in H as [a [s' [p' [Hs [Ha Hk]]]]].
    exists a, s', p', g. auto.
  - destruct (xorb _ _); [| discriminate].
    exists EmptyString, s, p, g. simpl. auto.
  - apply IH1 in H as [a [s' [p' [g' [Hs [Ha Hk]]]]]].
    exists a, s', p'. eexists. split; [exact Hs |]. split; [exact Ha |].
    exact Hk.
  - apply IH1 in H as [a1 [s1 [p1 [g1 [Hs1 [Ha1 H]]]]]].
    apply IH2 in H as [a2 [s2 [p2 [g2 [Hs2 [Ha2 H]]]]]].
    exists (a1 ++ a2), s2, p2, g2. split.
    + subst s s1. now rewrite append_assoc.
    + split; [| exact H]. now exists a1, a2.
Qed.

(** An attempt that succeeds has consumed a text of the pattern. *)
Lemma match_at_sound (r : regex) (p : option ascii) (s : string) (h : hit) :
  match_at r p s = Some h ->
  exists a s', s = a ++ s' /\ lang r a /\ fst h = length a.
Proof.
  unfold match_at. intro H.
  apply run_sound in H as [a [s' [p' [g' [Hs [Ha Hk]]]]]].
  exists a, s'. split; [exact Hs |]. split; [exact Ha |].
  injection Hk as <-. simpl. subst s. rewrite length_append. lia.
Qed.

Lemma lang_Lit (l a : string) : lang (Lit l) a -> a = l.
Proof.
  revert a. induction l as [| c l IH]; intros a H; simpl in H.
  - exact H.
  - destruct H as [a1 [a2 [-> [-> H2]]]]. simpl. f_equal. now apply IH.
Qed.

End Language.

(** * The two call shapes of step 3 *)

Section Usages.

Import Chars Str Re EnumFixer.

Lemma simple_re_lang (enum_name a : string) :
  lang (simple_re enum_name) a -> a = "@IsEnum(" ++ enum_name ++ ")".
Proof.
  unfold simple_re, seq. cbn [fold_right lang].
  intros [a1 [a2 [-> [H1 [b1 [b2 [-> [H2 [c1 [c2 [-> [H3 ->]]]]]]]]]]]].
  apply lang_Lit in H1, H2, H3. subst. now rewrite append_nil_r.
Qed.

Lemma array_re_lang (enum_name a : string) :
  lang (array_re enum_name) a ->
  exists w1 w2 w3 w4,
    blank w1 = true /\ blank w2 = true /\ blank w3 = true
    /\ blank w4 = true /\ a = array_usage enum_name w1 w2 w3 w4.
Proof.
  unfold array_re, seq. cbn [fold_right lang].
  intros [a1 [a2 [-> [H1 [b1 [b2 [-> [H2 [c1 [c2 [-> [H3
         [w1 [d2 [-> [W1 [e1 [e2 [-> [H4 [w2 [f2 [-> [W2
         [g1 [g2 [-> [H5 [w3 [h2 [-> [W3 [i1 [i2 [-> [H6
         [w4 [j2 [-> [W4 [k1 [k2 [-> [H7 ->]]]]]]]]]]]]]]]]]]]]]]]]]]]]]]]]]]]]]]]]]]]].
  apply lang_Lit in H1, H2, H5, H6, H7. subst.
  exists w1, w2, w3, w4. repeat (split; [assumption |]).
  rewrite append_nil_r. reflexivity.
Qed.

Lemma usage_re_lang (enum_name : string) (r : regex) (a : string) :
  usage_re enum_name r -> lang r a -> usage enum_name a.
Proof.
  intros [-> | ->] H.
  - left. now apply simple_re_lang.
  - right. now apply array_re_lang.
Qed.

Lemma usage_re_blind (enum_name : string) (r : regex) :
  usage_re enum_name r -> blind r = true.
Proof. intros [-> | ->]; [apply blind_simple_re | apply blind_array_re]. Qed.

Lemma usage_re_opens (enum_name : string) (r : regex) :
  usage_re enum_name r -> opens_with r "@".
Proof. intros [-> | ->]; [apply simple_re_opens | apply array_re_opens]. Qed.

(** Every usage starts with the decorator and holds one [@]. *)
Lemma usage_shape (enum_name m : string) :
  identifier enum_name = true -> usage enum_name m ->
  exists tail,
    m = String "@" ("IsEnum(" ++ tail) /\ lacks "@" tail = true.
Proof.
  intros He [-> | [w1 [w2 [w3 [w4 [H1 [H2 [H3 [H4 ->]]]]]]]]].
  - exists (enum_name ++ ")"). split; [reflexivity |].
    rewrite lacks_append, (identifier_lacks_at _ He). reflexivity.
  - exists (enum_name ++ "," ++ w1 ++ "{" ++ w2 ++ "each:" ++ w3 ++ "true"
            ++ w4 ++ "})").
    split; [reflexivity |].
    rewrite !lacks_append.
    rewrite (identifier_lacks_at _ He), (blank_lacks_at _ H1),
      (blank_lacks_at _ H2), (blank_lacks_at _ H3), (blank_lacks_at _ H4).
    reflexivity.
Qed.

(** The simple pattern consumes the simple form. *)
Lemma simple_re_eats (enum_name s : string) :
  eats (simple_re enum_name) ("@IsEnum(" ++ enum_name ++ ")") s.
Proof.
  unfold simple_re, seq. cbn [fold_right].
  repeat first
    [ apply eats_Cat_last
    | apply eats_Cat; [simpl; rewrite ?blind_Lit; reflexivity | | ] ];
    first [apply eats_Lit | apply eats_Chr].
Qed.

(** A pattern of a name matches in front of any text of its language. *)
Lemma usage_re_complete (enum_name : string) (r : regex) (a s : string)
    (p : option ascii) :
  usage_re enum_name r -> lang r a ->
  match_at r p (a ++ s) = Some (length a, None).
Proof.
  intros [-> | ->] H; apply eats_match_at.
  - apply simple_re_lang in H. subst a. apply simple_re_eats.
  - apply array_re_lang in H as [w1 [w2 [w3 [w4 [H1 [H2 [H3 [H4 ->]]]]]]]].
    now apply array_re_eats.
Qed.

End Usages.

(** * The scan of [re.sub] *)

Section Rewriting.

Import Chars Str Re EnumFixer.

Lemma sub_rewrites (r : regex) (repl : string) :
  blind r = true ->
  (forall a, lang r a -> a <> EmptyString) ->
  forall s, rewrites r repl s (sub r repl s).
Proof.
  intros Hb Hne.
  assert (Hnil : sub r repl EmptyString = EmptyString).
  { unfold sub. simpl. destruct (match_at r None EmptyString) eqn:E; auto.
    apply match_at_sound in E as [a [s' [Hs [Ha _]]]].
    destruct a; [now apply Hne in Ha | discriminate]. }
  assert (H : forall n s, length s <= n -> rewrites r repl s (sub r repl s)).
  { induction n as [| n IH]; intros s Hl.
    - destruct s; [| simpl in Hl; lia]. rewrite Hnil. constructor.
    - destruct s as [| c t]; [rewrite Hnil; constructor |].
      simpl in Hl. unfold sub. cbn [sub_from].
      destruct (match_at r None (String c t)) as [h |] eqn:E.
      + pose proof E as E'.
        apply match_at_sound in E' as [a [s' [Hs [Ha Hn]]]].
        destruct a as [| c' m]; [now apply Hne in Ha |].
        simpl in Hs. injection Hs as <- ->.
        rewrite Hn. cbn [length].
        rewrite (sub_from_skip r repl Hb).
        destruct h as [n' g]. simpl in Hn. subst n'.
        apply (rw_hit r repl c m s' _ g); auto.
        apply IH. rewrite length_append in Hl. lia.
      + rewrite (sub_from_blind r repl Hb t (Some c) None).
        apply rw_copy; auto. apply IH. lia.
  }
  intro s. now apply (H (length s)).
Qed.

Lemma mfree_drop (r : regex) (u v : string) : mfree r (u ++ v) -> mfree r v.
Proof.
  intros H u' v' p E. apply (H (u ++ u') v' p).
  now rewrite E, append_assoc.
Qed.

Lemma mfree_cons (r : regex) (c : ascii) (t : string) :
  (forall p, match_at r p (String c t) = None) -> mfree r t ->
  mfree r (String c t).
Proof.
  intros Hh Ht u v p E. destruct u as [| d u].
  - simpl in E. subst v. apply Hh.
  - simpl in E. injection E as _ E. now apply (Ht u v p).
Qed.

Lemma mfree_lacking (r : regex) (a : ascii) (x y : string) :
  opens_with r a -> lacks a x = true -> mfree r y -> mfree r (x ++ y).
Proof.
  intros Ho Hx Hy. induction x as [| c x IH]; [exact Hy |].
  unfold lacks in Hx. simpl in Hx. apply andb_true_iff in Hx as [Hc Hx].
  apply negb_true_iff in Hc.
  apply mfree_cons; [| now apply IH].
  intro p. now apply Ho.
Qed.

(** Where the pattern matches nowhere, [re.sub] returns the text. *)
Lemma sub_mfree (r : regex) (repl s : string) :
  mfree r s -> sub r repl s = s.
Proof.
  unfold sub. generalize (@None ascii) as p.
  induction s as [| c t IH]; intros p H; simpl.
  - now rewrite (H EmptyString EmptyString p).
  - rewrite (H EmptyString (String c t) p) by reflexivity.
    f_equal. apply IH. now apply (mfree_drop r (String c EmptyString)).
Qed.

(** A text without [@] that starts the result started the input, and the
    other way round. *)
Lemma rewrites_prefix_back (r : regex) (rt : string) (s s' : string) :
  rewrites r (String "@" rt) s s' ->
  forall x, lacks "@" x = true ->
            starts_with x s' = true -> starts_with x s = true.
Proof.
  induction 1 as [| c t t' Hm Hr IH | c m t t' g Hm Hl Hr IH];
    intros x Hx Hs.
  - exact Hs.
  - destruct x as [| d x]; [reflexivity |].
    rewrite lacks_cons in Hx. cbn [starts_with] in Hs |- *.
    apply andb_true_iff in Hx as [_ Hx].
    apply andb_true_iff in Hs as [Hd Hs]. rewrite Hd. now apply IH.
  - destruct x as [| d x]; [reflexivity |].
    rewrite lacks_cons in Hx. cbn [starts_with append] in Hs.
    apply andb_true_iff in Hx as [Hd _].
    apply andb_true_iff in Hs as [Hd' _].
    rewrite Ascii.eqb_sym in Hd'. rewrite Hd' in Hd. discriminate.
Qed.

Lemma rewrites_prefix_fwd (r : regex) (repl : string) (s s' : string) :
  opens_with r "@" ->
  rewrites r repl s s' ->
  forall x, lacks "@" x = true ->
            starts_with x s = true -> starts_with x s' = true.
Proof.
  intro Ho.
  induction 1 as [| c t t' Hm Hr IH | c m t t' g Hm Hl Hr IH];
    intros x Hx Hs.
  - exact Hs.
  - destruct x as [| d x]; [reflexivity |].
    rewrite lacks_cons in Hx. cbn [starts_with] in Hs |- *.
    apply andb_true_iff in Hx as [_ Hx].
    apply andb_true_iff in Hs as [Hd Hs]. rewrite Hd. now apply IH.
  - destruct x as [| d x]; [reflexivity |].
    rewrite lacks_cons in Hx. cbn [starts_with append] in Hs.
    apply andb_true_iff in Hx as [Hd _].
    apply andb_true_iff in Hs as [Hd' _].
    apply Ascii.eqb_eq in Hd'. subst d.
    apply negb_true_iff in Hd.
    cbn [append] in Hm. rewrite (Ho None c _ Hd) in Hm. discriminate.
Qed.

End Rewriting.

(** * No usage is left behind by step 3 *)

Section MatchFree.

Import Chars Str Re EnumFixer.

Lemma usage_re_nonempty (enum_name : string) (r : regex) (a : string) :
  usage_re enum_name r -> lang r a -> a <> EmptyString.
Proof.
  intros Hr Ha. apply (usage_re_lang _ _ _ Hr) in Ha.
  destruct Ha as [-> | [w1 [w2 [w3 [w4 [_ [_ [_ [_ ->]]]]]]]]]; discriminate.
Qed.

Lemma usage_repl_shape (enum_name repl : string) :
  identifier enum_name = true -> usage_repl enum_name repl ->
  exists rt, repl = String "@" ("IsIn(" ++ rt) /\ lacks "@" rt = true.
Proof.
  intros He [-> | ->].
  - exists (enum_name ++ "Values)"). split; [reflexivity |].
    now rewrite lacks_append, (identifier_lacks_at _ He).
  - exists (enum_name ++ "Values, { each: true })"). split; [reflexivity |].
    now rewrite lacks_append, (identifier_lacks_at _ He).
Qed.

Lemma sub_usage_rewrites (enum_name : string) (r : regex) (repl s : string) :
  usage_re enum_name r -> rewrites r repl s (sub r repl s).
Proof.
  intro Hr. apply sub_rewrites.
  - apply (usage_re_blind _ _ Hr).
  - intros a. apply (usage_re_nonempty _ _ _ Hr).
Qed.

(** A usage that starts at a copied character of the result started
    there in the input. *)
Lemma head_transfer (E : string) (r r0 : regex) (rt0 : string)
    (c : ascii) (t t' : string) (p : option ascii) (h : hit) :
  usage_re E r -> identifier E = true ->
  rewrites r0 (String "@" rt0) t t' ->
  match_at r p (String c t') = Some h ->
  exists h', match_at r p (String c t) = Some h'.
Proof.
  intros Hr He Hrw Hm.
  apply match_at_sound in Hm as [a [v [Hs [Ha _]]]].
  pose proof (usage_re_lang _ _ _ Hr Ha) as Hu.
  destruct (usage_shape _ _ He Hu) as [tail [-> Htail]].
  simpl in Hs. injection Hs as -> Ht'.
  assert (Hpre : starts_with ("IsEnum(" ++ tail) t' = true).
  { rewrite Ht'. apply (starts_with_append ("IsEnum(" ++ tail) v). }
  apply (rewrites_prefix_back _ _ _ _ Hrw) in Hpre.
  - apply starts_with_split in Hpre.
    exists (length (String "@" ("IsEnum(" ++ tail)), None).
    rewrite Hpre at 1.
    apply (usage_re_complete E r (String "@" ("IsEnum(" ++ tail)) _ p Hr Ha).
  - now rewrite lacks_append, Htail.
Qed.

Lemma rewrites_mfree (E E0 : string) (r r0 : regex) (repl0 : string) :
  usage_re E r -> identifier E = true ->
  usage_repl E0 repl0 -> identifier E0 = true ->
  forall s s',
    rewrites r0 repl0 s s' ->
    (forall u c t, s = u ++ String c t ->
                   match_at r0 None (String c t) = None ->
                   forall p, match_at r p (String c t) = None) ->
    mfree r s'.
Proof.
  intros Hr He Hrepl He0.
  destruct (usage_repl_shape _ _ He0 Hrepl) as [rt [-> Hrt]].
  assert (Hnil : forall p, match_at r p EmptyString = None).
  { intro p. destruct (match_at r p EmptyString) eqn:E1; [| reflexivity].
    apply match_at_sound in E1 as [a [v [Hs [Ha _]]]].
    destruct a; [| discriminate].
    now apply (usage_re_nonempty _ _ _ Hr) in Ha. }
  induction 1 as [| c t t' Hm Hrw IH | c m t t' g Hm Hl Hrw IH]; intro Hagree.
  - intros u v p E1. destruct u; [| discriminate]. simpl in E1. subst v.
    apply Hnil.
  - apply mfree_cons.
    + intro p. destruct (match_at r p (String c t')) as [h |] eqn:E1;
        [| reflexivity].
      destruct (head_transfer E r r0 _ c t t' p h Hr He Hrw E1) as [h' Hh'].
      rewrite (Hagree EmptyString c t eq_refl Hm p) in Hh'. discriminate.
    + apply IH. intros u d t2 E1. apply (Hagree (String c u)).
      simpl. now rewrite E1.
  - change (mfree r (String "@" (("IsIn(" ++ rt) ++ t'))).
    apply mfree_cons.
    + intro p.
      destruct (match_at r p (String "@" (("IsIn(" ++ rt) ++ t')))
        as [h |] eqn:E1; [| reflexivity].
      apply match_at_sound in E1 as [a [v [Hs [Ha _]]]].
      pose proof (usage_re_lang _ _ _ Hr Ha) as Hu.
      destruct (usage_shape _ _ He Hu) as [tail [-> _]].
      simpl in Hs. discriminate.
    + apply (mfree_lacking r "@").
      * apply (usage_re_opens _ _ Hr).
      * now rewrite lacks_append, Hrt.
      * apply IH. intros u d t2 E1. apply (Hagree (String c m ++ u)).
        rewrite E1. now rewrite append_assoc.
Qed.

(** The substitution of a pattern leaves no match of it. *)
Lemma sub_mfree_own (E : string) (r : regex) (repl s : string) :
  usage_re E r -> usage_repl E repl -> identifier E = true ->
  mfree r (sub r repl s).
Proof.
  intros Hr Hrepl He.
  apply (rewrites_mfree E E r r repl Hr He Hrepl He s).
  - now apply (sub_usage_rewrites E).
  - intros u c t _ Hm p.
    now rewrite (match_at_blind r p None _ (usage_re_blind _ _ Hr)).
Qed.

(** The substitution of a pattern brings no match of another. *)
Lemma sub_mfree_keep (E E0 : string) (r r0 : regex) (repl0 s : string) :
  usage_re E r -> identifier E = true ->
  usage_re E0 r0 -> usage_repl E0 repl0 -> identifier E0 = true ->
  mfree r s -> mfree r (sub r0 repl0 s).
Proof.
  intros Hr He Hr0 Hrepl He0 Hfree.
  apply (rewrites_mfree E E0 r r0 repl0 Hr He Hrepl He0 s).
  - now apply (sub_usage_rewrites E0).
  - intros u c t Hs _ p. now apply (Hfree u _ p).
Qed.

Lemma replace_enum_mfree_own (E : string) (r : regex) (content : string) :
  usage_re E r -> identifier E = true -> mfree r (replace_enum content E).
Proof.
  intros Hr He. unfold replace_enum. destruct Hr as [-> | ->].
  - apply (sub_mfree_keep E E); try assumption;
      solve [now left | now right
            | apply (sub_mfree_own E); solve [assumption | now left]].
  - apply (sub_mfree_own E); solve [assumption | now right].
Qed.

Lemma replace_enum_mfree_keep (E E0 : string) (r : regex) (content : string) :
  usage_re E r -> identifier E = true -> identifier E0 = true ->
  mfree r content -> mfree r (replace_enum content E0).
Proof.
  intros Hr He He0 Hfree. unfold replace_enum.
  apply (sub_mfree_keep E E0); try assumption; try now right.
  apply (sub_mfree_keep E E0); try assumption; now left.
Qed.

Lemma replace_decorators_mfree_keep (E : string) (r : regex)
    (enums : list string) :
  usage_re E r -> identifier E = true ->
  forallb identifier enums = true ->
  forall content,
    mfree r content -> mfree r (replace_decorators enums content).
Proof.
  intros Hr He. unfold replace_decorators.
  induction enums as [| e es IH]; intros Hes content Hfree; [exact Hfree |].
  simpl in Hes. apply andb_true_iff in Hes as [He0 Hes].
  simpl. apply (IH Hes). now apply (replace_enum_mfree_keep E).
Qed.

(** After step 3 no pattern of a selected name matches. *)
Lemma replace_decorators_mfree (E : string) (r : regex) (enums : list string) :
  usage_re E r -> In E enums -> forallb identifier enums = true ->
  forall content, mfree r (replace_decorators enums content).
Proof.
  intros Hr. unfold replace_decorators.
  induction enums as [| e es IH]; intros Hin Hes content; [contradiction |].
  simpl in Hes. apply andb_true_iff in Hes as [He0 Hes]. simpl.
  destruct Hin as [-> | Hin].
  - apply (replace_decorators_mfree_keep E r es Hr He0 Hes).
    now apply replace_enum_mfree_own.
  - now apply IH.
Qed.

End MatchFree.

(** * The constants survive step 3 *)

Section ConstantsKept.

Import Chars Str Re EnumFixer.

Lemma starts_with_either (x a t : string) :
  starts_with x (a ++ t) = true ->
  starts_with x a = true \/ starts_with a x = true.
Proof.
  revert a. induction x as [| d x IH]; intros a H; [now left |].
  destruct a as [| c a]; [now right |].
  cbn [append starts_with] in H |- *.
  apply andb_true_iff in H as [Hd H].
  destruct (IH _ H) as [H' | H']; [left | right]; rewrite H'.
  - now rewrite Hd.
  - now rewrite Ascii.eqb_sym, Hd.
Qed.

Lemma lacks_prefix (ch : ascii) (a x : string) :
  starts_with a x = true -> lacks ch x = true -> lacks ch a = true.
Proof.
  revert x. induction a as [| c a IH]; intros x H Hx; [reflexivity |].
  destruct x as [| d x]; [discriminate |].
  cbn [starts_with] in H. apply andb_true_iff in H as [Hc H].
  apply Ascii.eqb_eq in Hc. subst d.
  rewrite lacks_cons in Hx |- *. apply andb_true_iff in Hx as [Hc Hx].
  rewrite Hc. now apply (IH x).
Qed.

Lemma contains_cons_or (x : string) (c : ascii) (t : string) :
  contains x (String c t) = true ->
  starts_with x (String c t) = true \/ contains x t = true.
Proof. cbn [contains]. intro H. now apply orb_true_iff in H. Qed.

Lemma contains_skip (x y t : string) :
  contains x t = true -> contains x (y ++ t) = true.
Proof.
  intro H. induction y as [| c y IH]; [exact H |]. now apply contains_later.
Qed.

Lemma contains_trans (y x u : string) :
  contains y x = true -> contains x u = true -> contains y u = true.
Proof.
  intros Hy Hx.
  apply contains_split in Hy as [p [q ->]].
  apply contains_split in Hx as [p' [q' ->]].
  rewrite !append_assoc. rewrite <- (append_assoc p' p).
  apply contains_append.
Qed.

(** An occurrence in front of [t] that does not lie in the closed call
    lies in [t]. *)
Lemma contains_behind_call (x body t : string) :
  x <> EmptyString -> lacks ")" x = true ->
  contains x (body ++ ")") = false ->
  contains x ((body ++ ")") ++ t) = true -> contains x t = true.
Proof.
  intros Hne Hx. induction body as [| c body IH]; intros Hno H.
  - cbn [append] in H. apply contains_cons_or in H as [H | H]; [| exact H].
    destruct x as [| d x]; [contradiction |].
    rewrite lacks_cons in Hx. apply andb_true_iff in Hx as [Hd _].
    cbn [starts_with] in H. apply andb_true_iff in H as [Hd' _].
    rewrite Ascii.eqb_sym in Hd'. rewrite Hd' in Hd. discriminate.
  - cbn [append] in H. apply contains_cons_or in H as [H | H].
    + change (String c ((body ++ ")") ++ t))
        with ((String c body ++ ")") ++ t) in H.
      apply starts_with_either in H as [H | H].
      * apply contains_here in H. rewrite H in Hno. discriminate.
      * apply (lacks_prefix ")" _ _ H) in Hx.
        rewrite lacks_append in Hx. apply andb_true_iff in Hx as [_ Hx].
        discriminate.
    + apply IH; [| exact H].
      cbn [append contains] in Hno. now apply orb_false_iff in Hno.
Qed.

Lemma tsp_append (b : bool) (x y : string) :
  tsp b (x ++ y) = tsp b x || tsp (tstate b x) y.
Proof.
  revert b. induction x as [| c x IH]; intro b; [reflexivity |].
  cbn [append tsp tstate]. now rewrite IH, orb_assoc.
Qed.

Lemma tsp_complete (s : string) (b : bool) :
  contains "t " s = true -> tsp b s = true.
Proof.
  revert b. induction s as [| c s IH]; intros b H; [discriminate |].
  cbn [tsp]. apply contains_cons_or in H as [H | H].
  - cbn [starts_with] in H. apply andb_true_iff in H as [Hc H].
    destruct s as [| d s]; [discriminate |].
    apply andb_true_iff in H as [Hd _].
    rewrite Ascii.eqb_sym in Hc. rewrite Hc. cbn [tsp].
    rewrite Ascii.eqb_sym in Hd. rewrite Hd. simpl.
    apply orb_true_r.
  - rewrite (IH _ H). apply orb_true_r.
Qed.

Lemma tsp_nospace (x : string) (b : bool) :
  lacks " " x = true -> tsp b x = false.
Proof.
  revert b. induction x as [| c x IH]; intros b H; [reflexivity |].
  rewrite lacks_cons in H. apply andb_true_iff in H as [Hc H].
  apply negb_true_iff in Hc. rewrite Ascii.eqb_sym in Hc.
  cbn [tsp]. rewrite Hc, (IH _ H). now rewrite andb_false_r.
Qed.

Lemma tsp_no_t (w : string) :
  lacks "t" w = true -> tsp false w = false /\ tstate false w = false.
Proof.
  induction w as [| c w IH]; intro H; [now split |].
  rewrite lacks_cons in H. apply andb_true_iff in H as [Hc H].
  apply negb_true_iff in Hc. rewrite Ascii.eqb_sym in Hc.
  cbn [tsp tstate]. rewrite Hc. now apply IH.
Qed.

Lemma word_not_space (c : ascii) :
  is_word c = true -> negb (Ascii.eqb " " c) = true.
Proof.
  revert c.
  assert (H : forall c, (negb (is_word c) || negb (Ascii.eqb " " c)) = true).
  { apply ascii_cases. vm_compute. reflexivity. }
  intros c Hc. specialize (H c). now rewrite Hc in H.
Qed.

Lemma word_not_rparen (c : ascii) :
  is_word c = true -> negb (Ascii.eqb ")" c) = true.
Proof.
  revert c.
  assert (H : forall c, (negb (is_word c) || negb (Ascii.eqb ")" c)) = true).
  { apply ascii_cases. vm_compute. reflexivity. }
  intros c Hc. specialize (H c). now rewrite Hc in H.
Qed.

Lemma space_not_t (c : ascii) :
  is_space c = true -> negb (Ascii.eqb "t" c) = true.
Proof.
  revert c.
  assert (H : forall c, (negb (is_space c) || negb (Ascii.eqb "t" c)) = true).
  { apply ascii_cases. vm_compute. reflexivity. }
  intros c Hc. specialize (H c). now rewrite Hc in H.
Qed.

Lemma tsp_literal (l rest : string) (b : bool) :
  lacks " " l = true -> tstate true l = false -> tstate false l = false ->
  tsp b (l ++ rest) = tsp false rest.
Proof.
  intros Hl Ht Hf. rewrite tsp_append, (tsp_nospace _ _ Hl).
  destruct b; now rewrite ?Ht, ?Hf.
Qed.

Lemma tsp_blank (w rest : string) :
  blank w = true -> tsp false (w ++ rest) = tsp false rest.
Proof.
  intro Hw. apply (forallb_weaken _ _ _ space_not_t) in Hw.
  destruct (tsp_no_t w Hw) as [H1 H2]. now rewrite tsp_append, H1, H2.
Qed.

(** No usage holds a [t] followed by a blank of code 32. *)
Lemma usage_no_tsp (E u : string) :
  identifier E = true -> usage E u -> contains "t " u = false.
Proof.
  intros He Hu. destruct (contains "t " u) eqn:Hc; [| reflexivity].
  apply (tsp_complete _ false) in Hc.
  assert (Hsp : lacks " " E = true)
    by apply (forallb_weaken _ _ _ word_not_space He).
  destruct Hu as [-> | [w1 [w2 [w3 [w4 [H1 [H2 [H3 [H4 ->]]]]]]]]].
  - rewrite tsp_nospace in Hc; [discriminate |].
    rewrite !lacks_append. now rewrite Hsp.
  - unfold array_usage in Hc.
    rewrite (tsp_literal "@IsEnum(") in Hc by reflexivity.
    rewrite tsp_append in Hc.
    rewrite (tsp_nospace _ _ Hsp) in Hc. cbn [orb] in Hc.
    rewrite (tsp_literal ",") in Hc by reflexivity.
    rewrite (tsp_blank _ _ H1) in Hc.
    rewrite (tsp_literal "{") in Hc by reflexivity.
    rewrite (tsp_blank _ _ H2) in Hc.
    rewrite (tsp_literal "each:") in Hc by reflexivity.
    rewrite (tsp_blank _ _ H3) in Hc.
    rewrite (tsp_literal "true") in Hc by reflexivity.
    rewrite (tsp_blank _ _ H4) in Hc.
    discriminate.
Qed.

Lemma const_text_tsp (e : string) : contains "t " (const_text e) = true.
Proof. apply (contains_append "t " "cons" (e ++ "Values")). Qed.

Lemma const_text_lacks (ch : ascii) (e : string) :
  (forall c, is_word c = true -> negb (Ascii.eqb ch c) = true) ->
  lacks ch "const Values" = true ->
  identifier e = true -> lacks ch (const_text e) = true.
Proof.
  intros Hw Hl He. unfold const_text.
  rewrite !lacks_append.
  assert (H : lacks ch e = true) by apply (forallb_weaken _ _ _ Hw He).
  rewrite H. change "const Values" with ("const " ++ "Values") in Hl.
  rewrite lacks_append in Hl. apply andb_true_iff in Hl as [-> ->].
  reflexivity.
Qed.

Lemma usage_closed (E u : string) :
  usage E u -> exists body, u = body ++ ")".
Proof.
  intros [-> | [w1 [w2 [w3 [w4 [_ [_ [_ [_ ->]]]]]]]]].
  - exists ("@IsEnum(" ++ E). now rewrite !append_assoc.
  - exists ("@IsEnum(" ++ E ++ "," ++ w1 ++ "{" ++ w2 ++ "each:" ++ w3
            ++ "true" ++ w4 ++ "}").
    unfold array_usage. now rewrite !append_assoc.
Qed.

Lemma const_not_in_usage (e E u : string) :
  identifier E = true -> usage E u -> contains (const_text e) u = false.
Proof.
  intros HE Hu. destruct (contains (const_text e) u) eqn:Hc; [| reflexivity].
  pose proof (contains_trans _ _ _ (const_text_tsp e) Hc) as H.
  now rewrite (usage_no_tsp _ _ HE Hu) in H.
Qed.

(** A substitution of step 3 keeps the constant of a name. *)
Lemma rewrites_keeps_const (e E0 : string) (r0 : regex) (repl0 : string) :
  identifier e = true -> identifier E0 = true -> usage_re E0 r0 ->
  forall s s',
    rewrites r0 repl0 s s' ->
    contains (const_text e) s = true -> contains (const_text e) s' = true.
Proof.
  intros He HE0 Hr0.
  assert (Hat : lacks "@" (const_text e) = true)
    by (apply const_text_lacks; auto using word_not_at).
  assert (Hrp : lacks ")" (const_text e) = true)
    by (apply const_text_lacks; auto using word_not_rparen).
  induction 1 as [| c t t' Hm Hrw IH | c m t t' g Hm Hl Hrw IH]; intro Hc.
  - exact Hc.
  - apply contains_cons_or in Hc as [Hc | Hc].
    + apply contains_here.
      apply (rewrites_prefix_fwd r0 repl0 (String c t) (String c t')
               (usage_re_opens _ _ Hr0)); auto.
      now apply rw_copy.
    + apply contains_later. now apply IH.
  - apply contains_skip. apply IH.
    pose proof (usage_re_lang _ _ _ Hr0 Hl) as Hu.
    destruct (usage_closed _ _ Hu) as [body Hb].
    rewrite Hb in Hc.
    apply (contains_behind_call (const_text e) body t); auto.
    + discriminate.
    + rewrite <- Hb. now apply (const_not_in_usage e E0).
Qed.

Lemma replace_enum_keeps_const (e E0 content : string) :
  identifier e = true -> identifier E0 = true ->
  contains (const_text e) content = true ->
  contains (const_text e) (replace_enum content E0) = true.
Proof.
  intros He HE0 Hc. unfold replace_enum.
  apply (rewrites_keeps_const e E0 (array_re E0) (array_repl E0) He HE0
           (or_intror eq_refl) _ _
           (sub_usage_rewrites E0 _ _ _ (or_intror eq_refl))).
  apply (rewrites_keeps_const e E0 (simple_re E0) (simple_repl E0) He HE0
           (or_introl eq_refl) _ _
           (sub_usage_rewrites E0 _ _ _ (or_introl eq_refl))).
  exact Hc.
Qed.

Lemma replace_decorators_keeps_const (e : string) (enums : list string) :
  identifier e = true -> forallb identifier enums = true ->
  forall content,
    contains (const_text e) content = true ->
    contains (const_text e) (replace_decorators enums content) = true.
Proof.
  intros He. unfold replace_decorators.
  induction enums as [| E0 es IH]; intros Hes content Hc; [exact Hc |].
  simpl in Hes. apply andb_true_iff in Hes as [HE0 Hes]. simpl.
  apply (IH Hes). now apply replace_enum_keeps_const.
Qed.

End ConstantsKept.

(** * The token [IsIn] survives steps 2 and 3 *)

Section TokenKept.

Import Chars Str Re EnumFixer.

Lemma search_from_finds (r : regex) (s : string) :
  forall p pos,
    finds r p s
    = match search_from r p pos s with Some _ => true | None => false end.
Proof.
  induction s as [| c s IH]; intros p pos; simpl;
    destruct (match_at r p _); auto.
Qed.

Lemma search_finds (r : regex) (s : string) :
  search r s <> None <-> finds r None s = true.
Proof.
  unfold search. rewrite (search_from_finds r s None 0).
  destruct (search_from r None 0 s); split; congruence.
Qed.

(** What is found further on is found. *)
Lemma finds_later (r : regex) (c : ascii) (y : string) :
  finds r (Some c) y = true ->
  forall x p, finds r p (x ++ String c y) = true.
Proof.
  intros H x. induction x as [| d x IH]; intro p.
  - cbn [append finds]. destruct (match_at r p _); auto.
  - cbn [append finds]. destruct (match_at r p _); auto.
Qed.

Lemma isin_match_at (p : option ascii) (s : string) :
  match_at isin_re p s
  = if token_at p s then Some (4, None) else None.
Proof.
  unfold match_at, isin_re, seq, token_at.
  cbn [fold_right Lit run].
  destruct s as [| c1 s]; [now destruct (word_opt p) |].
  cbn [head starts_with drop].
  destruct (Ascii.eqb_spec "I" c1) as [<- |];
    [| now destruct (word_opt p), (word_opt (Some c1))].
  change (word_opt (Some "I"%char)) with true.
  destruct (word_opt p); [reflexivity |]. cbn [xorb negb andb].
  destruct s as [| c2 s]; [reflexivity |]. cbn [starts_with drop].
  destruct (Ascii.eqb_spec "s" c2) as [<- |]; [| reflexivity].
  destruct s as [| c3 s]; [reflexivity |]. cbn [starts_with drop].
  destruct (Ascii.eqb_spec "I" c3) as [<- |]; [| reflexivity].
  destruct s as [| c4 s]; [reflexivity |]. cbn [starts_with drop].
  destruct (Ascii.eqb_spec "n" c4) as [<- |]; [| reflexivity].
  cbn [andb]. change (word_opt (Some "n"%char)) with true.
  destruct (word_opt (head s)); cbn [xorb negb]; [reflexivity |].
  f_equal. f_equal. cbn [length]. lia.
Qed.

Lemma finds_isin_prev (p q : option ascii) (s : string) :
  word_opt p = word_opt q -> finds isin_re p s = finds isin_re q s.
Proof.
  intro H. destruct s as [| c s]; cbn [finds];
    rewrite !isin_match_at; unfold token_at; now rewrite H.
Qed.

Lemma starts_with_before (ch : ascii) (l X v : string) :
  lacks ch l = true ->
  starts_with l (X ++ String ch v) = starts_with l X.
Proof.
  revert X. induction l as [| d l IH]; intros X Hl; [reflexivity |].
  rewrite lacks_cons in Hl. apply andb_true_iff in Hl as [Hd Hl].
  apply negb_true_iff in Hd. rewrite Ascii.eqb_sym in Hd.
  destruct X as [| c X]; cbn [append starts_with].
  - now rewrite Hd.
  - now rewrite IH.
Qed.

(** An attempt in front of a semicolon does not see what follows it. *)
Lemma token_at_before (p : option ascii) (X v w : string) :
  token_at p (X ++ String ";" v) = token_at p (X ++ String ";" w).
Proof.
  unfold token_at. rewrite !(starts_with_before ";") by reflexivity.
  destruct (starts_with "IsIn" X) eqn:E;
    [| now destruct (negb (word_opt p))].
  apply starts_with_split in E.
  generalize dependent (drop (length "IsIn") X). intros X2 ->.
  cbn [append drop]. now destruct X2.
Qed.

(** The token is still found when a text that ends with a character
    outside [\w] is put behind a semicolon. *)
Lemma finds_isin_insert (v mid : string) (d : ascii) :
  is_word d = false ->
  forall A p,
    finds isin_re p (A ++ String ";" v) = true ->
    finds isin_re p (A ++ String ";" (mid ++ String d v)) = true.
Proof.
  intros Hd A. induction A as [| c A IH]; intros p H.
  - cbn [append finds] in H |- *.
    rewrite isin_match_at in H |- *.
    pose proof (token_at_before p EmptyString (mid ++ String d v) v) as HT.
    cbn [append] in HT. rewrite HT.
    destruct (token_at p (String ";" v)); [reflexivity |].
    apply finds_later.
    rewrite (finds_isin_prev (Some d) (Some ";"%char)); [exact H |].
    cbn [word_opt]. now rewrite Hd.
  - cbn [append finds] in H |- *.
    rewrite isin_match_at in H |- *.
    pose proof (token_at_before p (String c A) (mid ++ String d v) v) as HT.
    cbn [append] in HT. rewrite HT.
    destruct (token_at p (String c (A ++ String ";" v))); [reflexivity |].
    now apply IH.
Qed.

Lemma rewrites_changed (r : regex) (repl s s' : string) :
  rewrites r repl s s' -> s' = s \/ exists u v, s' = u ++ repl ++ v.
Proof.
  induction 1 as [| c t t' Hm Hr IH | c m t t' g Hm Hl Hr IH].
  - now left.
  - destruct IH as [-> | [u [v ->]]]; [now left |].
    right. now exists (String c u), v.
  - right. now exists EmptyString, t'.
Qed.

(** A substitution of step 3 keeps the token, or brings it. *)
Lemma sub_keeps_token (E0 : string) (r0 : regex) (repl0 s : string) :
  usage_re E0 r0 -> usage_repl E0 repl0 ->
  finds isin_re None s = true ->
  finds isin_re None (sub r0 repl0 s) = true.
Proof.
  intros Hr0 Hrepl H.
  destruct (rewrites_changed _ _ _ _ (sub_usage_rewrites E0 r0 repl0 s Hr0))
    as [-> | [u [v ->]]]; [exact H |].
  assert (Hshape : exists rest, repl0 ++ v = String "@" ("IsIn(" ++ rest)).
  { destruct Hrepl as [-> | ->]; eexists; reflexivity. }
  destruct Hshape as [rest ->].
  apply finds_later. cbn [append finds].
  now rewrite isin_match_at.
Qed.

Lemma replace_decorators_keeps_token (enums : list string) :
  forall content,
    finds isin_re None content = true ->
    finds isin_re None (replace_decorators enums content) = true.
Proof.
  unfold replace_decorators.
  induction enums as [| E0 es IH]; intros content H; [exact H |].
  simpl. apply IH. unfold replace_enum.
  apply (sub_keeps_token E0); [now right | now right |].
  apply (sub_keeps_token E0); [now left | now left | exact H].
Qed.

End TokenKept.

(** * Where step 2 inserts *)

Section Insertion.

Import Chars Str Re EnumFixer.

(** Every match that [re.finditer] yields ends behind a text of the
    pattern. *)
Lemma finditer_from_sound (r : regex) (m : match_obj) :
  forall s pre p skip,
    In m (finditer_from r p (length pre) skip s) ->
    exists u a v,
      pre ++ s = u ++ a ++ v /\ lang r a
      /\ m_end m = length u + length a.
Proof.
  induction s as [| c s IH]; intros pre p skip Hin.
  - cbn [finditer_from] in Hin. destruct skip; [| contradiction].
    destruct (match_at r p EmptyString) as [h |] eqn:E; [| contradiction].
    destruct Hin as [<- | []].
    apply match_at_sound in E as [a [v [Hs [Ha Hn]]]].
    exists pre, a, v. rewrite <- Hs. split; [reflexivity |].
    split; [exact Ha |]. simpl. now rewrite Hn.
  - assert (Hpre : S (length pre) = length (pre ++ String c EmptyString))
      by (rewrite length_append; simpl; lia).
    assert (Happ : (pre ++ String c EmptyString) ++ s = pre ++ String c s)
      by now rewrite append_assoc.
    cbn [finditer_from] in Hin. destruct skip as [| k].
    + destruct (match_at r p (String c s)) as [h |] eqn:E.
      * destruct Hin as [<- | Hin].
        -- apply match_at_sound in E as [a [v [Hs [Ha Hn]]]].
           exists pre, a, v. rewrite <- Hs. split; [reflexivity |].
           split; [exact Ha |]. simpl. now rewrite Hn.
        -- rewrite Hpre in Hin. apply IH in Hin. now rewrite Happ in Hin.
      * rewrite Hpre in Hin. apply IH in Hin. now rewrite Happ in Hin.
    + rewrite Hpre in Hin. apply IH in Hin. now rewrite Happ in Hin.
Qed.

Lemma import_stmt_re_lang (a : string) :
  lang import_stmt_re a -> exists a', a = a' ++ ";".
Proof.
  unfold import_stmt_re, seq. cbn [fold_right lang].
  intros [a1 [a2 [-> [_ [b1 [b2 [-> [_ [c1 [c2 [-> [_ [d1 [d2 [-> [_
         [e1 [e2 [-> [_ [f1 [f2 [-> [_ [g1 [g2 [-> [_ [h1 [h2 [-> [_
         [i1 [i2 [-> [-> ->]]]]]]]]]]]]]]]]]]]]]]]]]]]]]]]]]]]].
  exists (a1 ++ b1 ++ c1 ++ d1 ++ e1 ++ f1 ++ g1 ++ h1).
  now rewrite !append_assoc.
Qed.

(** The last import statement ends with its semicolon. *)
Lemma last_import_match_split (content : string) (m : match_obj) :
  last_import_match content = Some m ->
  exists A v,
    content = A ++ String ";" v
    /\ take (m_end m) content = A ++ ";"
    /\ drop (m_end m) content = v.
Proof.
  intro H. unfold last_import_match in H.
  apply keep_last in H as [[_ H] | [earlier H]]; [discriminate |].
  assert (Hin : In m (finditer_from import_stmt_re None
                        (length EmptyString) 0 content)).
  { unfold finditer in H. simpl length. rewrite H.
    apply in_or_app. right. now left. }
  apply finditer_from_sound in Hin as [u [a [v [Hs [Ha Hn]]]]].
  apply import_stmt_re_lang in Ha as [a' ->].
  simpl in Hs. exists (u ++ a'), v.
  assert (Hc : content = ((u ++ a') ++ ";") ++ v)
    by (rewrite Hs; now rewrite !append_assoc).
  assert (Hl : m_end m = length ((u ++ a') ++ ";"))
    by (rewrite Hn, !length_append; lia).
  split; [| split].
  - rewrite Hc. now rewrite !append_assoc.
  - rewrite Hl, Hc. apply take_append.
  - rewrite Hl, Hc. apply drop_append.
Qed.

(** A text without semicolon that occurs in the file still occurs when
    something is put behind a semicolon. *)
Lemma contains_insert (x v cs : string) :
  lacks ";" x = true ->
  forall A,
    contains x (A ++ String ";" v) = true ->
    contains x (A ++ String ";" (cs ++ v)) = true.
Proof.
  intros Hx A. induction A as [| c A IH]; intro H.
  - cbn [append] in H |- *.
    apply contains_cons_or in H as [H | H].
    + apply contains_here.
      pose proof (starts_with_before ";" x EmptyString v Hx) as E1.
      pose proof (starts_with_before ";" x EmptyString (cs ++ v) Hx) as E2.
      cbn [append] in E1, E2. congruence.
    + apply contains_later. now apply contains_skip.
  - cbn [append] in H |- *.
    apply contains_cons_or in H as [H | H].
    + apply contains_here.
      pose proof (starts_with_before ";" x (String c A) v Hx) as E1.
      pose proof (starts_with_before ";" x (String c A) (cs ++ v) Hx) as E2.
      cbn [append] in E1, E2. congruence.
    + apply contains_later. now apply IH.
Qed.

Lemma contains_weaken (x a b : string) :
  contains x a = true -> contains x (a ++ b) = true.
Proof.
  intro H. apply contains_split in H as [u [v ->]].
  rewrite !append_assoc. apply contains_append.
Qed.

(** The inserted block ends with a line feed. *)
Lemma block_ends_with_nl (names : list string) :
  forall pre,
    exists mid,
      (pre ++ nls) ++ join (map declaration names) = mid ++ nls.
Proof.
  induction names as [| e es IH]; intro pre.
  - exists pre. simpl. now rewrite append_nil_r.
  - cbn [map join fold_right]. fold (join (map declaration es)).
    destruct (IH ((pre ++ nls) ++ "const " ++ e ++ "Values = Object.values("
                  ++ e ++ ") as string[];")) as [mid Hmid].
    exists mid. rewrite <- Hmid. unfold declaration.
    now rewrite !append_assoc.
Qed.

Lemma declaration_const (e : string) :
  exists rest, declaration e = const_text e ++ rest.
Proof.
  exists (" = Object.values(" ++ e ++ ") as string[];" ++ nls).
  unfold declaration, const_text. now rewrite !append_assoc.
Qed.

Lemma join_contains (x e : string) (names : list string) :
  In e names -> contains x (declaration e) = true ->
  contains x (join (map declaration names)) = true.
Proof.
  intros Hin Hx. induction names as [| n ns IH]; [contradiction |].
  cbn [map join fold_right]. fold (join (map declaration ns)).
  destruct Hin as [-> | Hin].
  - now apply contains_weaken.
  - apply contains_skip. now apply IH.
Qed.

End Insertion.

(** * The array case of step 3 *)

Section ArrayCase.

Import Chars Str Re EnumFixer.

Lemma sub_copy (r : regex) (repl : string) (c : ascii) (t : string) :
  blind r = true ->
  match_at r None (String c t) = None ->
  sub r repl (String c t) = String c (sub r repl t).
Proof.
  intros Hb Hm. unfold sub at 1. cbn [sub_from]. rewrite Hm.
  now rewrite (sub_from_blind r repl Hb t (Some c) None).
Qed.

(** The scan up to an [@] does not depend on what follows from there:
    a usage holds no [@] but its first character. *)
Lemma sub_split_at (E : string) (r : regex) (repl t : string) :
  usage_re E r -> identifier E = true ->
  forall pre,
    sub r repl (pre ++ String "@" t)
    = sub r repl pre ++ sub r repl (String "@" t).
Proof.
  intros Hr He.
  pose proof (usage_re_blind _ _ Hr) as Hb.
  assert (Hnil : sub r repl EmptyString = EmptyString).
  { apply sub_mfree. intros u v p E1. destruct u; [| discriminate].
    simpl in E1. subst v.
    destruct (match_at r p EmptyString) eqn:E2; [| reflexivity].
    apply match_at_sound in E2 as [a [v [Hs [Ha _]]]].
    destruct a; [| discriminate].
    now apply (usage_re_nonempty _ _ _ Hr) in Ha. }
  assert (H : forall n pre, length pre <= n ->
                sub r repl (pre ++ String "@" t)
                = sub r repl pre ++ sub r repl (String "@" t)).
  { induction n as [| n IH]; intros pre Hl.
    - destruct pre; [| simpl in Hl; lia]. now rewrite Hnil.
    - destruct pre as [| c pre]; [now rewrite Hnil |].
      simpl in Hl.
      destruct (match_at r None (String c pre)) as [h |] eqn:E1.
      + apply match_at_sound in E1 as [a [v [Hs [Ha _]]]].
        destruct a as [| c' m];
          [now apply (usage_re_nonempty _ _ _ Hr) in Ha |].
        simpl in Hs. injection Hs as <- ->.
        pose proof (usage_re_complete E r (String c m) v None Hr Ha) as M1.
        pose proof (usage_re_complete E r (String c m)
                      (v ++ String "@" t) None Hr Ha) as M2.
        cbn [length] in M1, M2.
        change (String c (m ++ v)) with (String c m ++ v).
        rewrite (sub_at_match r repl c m v None Hb M1).
        rewrite append_assoc.
        rewrite (sub_at_match r repl c m _ None Hb M2).
        rewrite IH by (rewrite length_append in Hl; lia).
        now rewrite !append_assoc.
      + assert (E2 : match_at r None (String c pre ++ String "@" t) = None).
        { destruct (match_at r None (String c pre ++ String "@" t))
            as [h |] eqn:E2; [| reflexivity].
          apply match_at_sound in E2 as [a [v [Hs [Ha _]]]].
          pose proof (usage_re_lang _ _ _ Hr Ha) as Hu.
          destruct (usage_shape _ _ He Hu) as [tail [-> Htail]].
          simpl in Hs. injection Hs as -> Hs.
          assert (Hl' : lacks "@" ("IsEnum(" ++ tail) = true)
            by now rewrite lacks_append, Htail.
          pose proof (starts_with_before "@" _ pre t Hl') as Hsw.
          assert (Hs' : pre ++ String "@" t = ("IsEnum(" ++ tail) ++ v)
            by exact Hs.
          rewrite Hs' in Hsw.
          rewrite (starts_with_append ("IsEnum(" ++ tail) v) in Hsw.
          symmetry in Hsw. apply starts_with_split in Hsw.
          assert (M : exists h', match_at r None (String "@" pre) = Some h').
          { rewrite Hsw. eexists.
            exact (usage_re_complete E r (String "@" ("IsEnum(" ++ tail)) _
                     None Hr Ha). }
          destruct M as [h' M]. rewrite M in E1. discriminate. }
        cbn [append] in E2 |- *.
        rewrite (sub_copy r repl c _ Hb E2), (sub_copy r repl c _ Hb E1).
        rewrite IH by lia. reflexivity. }
  intro pre. now apply (H (length pre)).
Qed.


End ArrayCase.


(** * The second run *)

Section SecondRun.

Import Chars Str Re EnumFixer.

Lemma word_not_semicolon (c : ascii) :
  is_word c = true -> negb (Ascii.eqb ";" c) = true.
Proof.
  revert c.
  assert (H : forall c, (negb (is_word c) || negb (Ascii.eqb ";" c)) = true).
  { apply ascii_cases. vm_compute. reflexivity. }
  intros c Hc. specialize (H c). now rewrite Hc in H.
Qed.

Lemma word_not_meta (c : ascii) :
  is_word c = true -> negb (is_meta c) = true.
Proof.
  revert c.
  assert (H : forall c, (negb (is_word c) || negb (is_meta c)) = true).
  { apply ascii_cases. vm_compute. reflexivity. }
  intros c Hc. specialize (H c). now rewrite Hc in H.
Qed.

Lemma identifier_plain (name : string) :
  identifier name = true -> plain name = true.
Proof. apply forallb_weaken, word_not_meta. Qed.

Lemma lacking_nil (enums : list string) (content : string) :
  (forall e, In e enums -> contains (const_text e) content = true) ->
  lacking enums content = [].
Proof.
  intro H. unfold lacking. induction enums as [| e es IH]; [reflexivity |].
  cbn [filter]. fold (const_text e). rewrite (H e) by now left.
  cbn [negb]. apply IH. intros e' He'. apply H. now right.
Qed.

Lemma lacking_or_present (enums : list string) (content e : string) :
  In e enums ->
  In e (lacking enums content) \/ contains (const_text e) content = true.
Proof.
  intro Hin. destruct (contains (const_text e) content) eqn:E; [now right |].
  left. unfold lacking. apply filter_In. split; [exact Hin |].
  fold (const_text e). now rewrite E.
Qed.

(** After step 2, in a text with an import statement, every selected
    identifier has its constant, and the token is kept. *)
Lemma add_constants_result (enums : list string) (content : string) :
  forallb identifier enums = true ->
  last_import_match content <> None ->
  (forall e, In e enums ->
             contains (const_text e) (add_constants enums content) = true)
  /\ (finds isin_re None content = true ->
      finds isin_re None (add_constants enums content) = true).
Proof.
  intros Hid Hlast.
  destruct (last_import_match content) as [m |] eqn:Hm; [| contradiction].
  destruct (lacking enums content) as [| l ls] eqn:Hl.
  - rewrite (add_constants_nothing_lacking _ _ Hl). split; [| auto].
    intros e He.
    destruct (lacking_or_present enums content e He) as [H | H]; [| exact H].
    rewrite Hl in H. contradiction.
  - rewrite (add_constants_inserts enums content m Hm)
      by (rewrite Hl; discriminate).
    destruct (last_import_match_split _ _ Hm) as [A [v [Hc [Ht Hd]]]].
    rewrite Ht, Hd. rewrite Hl.
    set (cs := header ++ join (map declaration (l :: ls))).
    assert (Hshape : (A ++ ";") ++ header ++ join (map declaration (l :: ls)) ++ v
                     = A ++ String ";" (cs ++ v)).
    { unfold cs. now rewrite !append_assoc. }
    rewrite Hshape. split.
    + intros e He.
      destruct (lacking_or_present enums content e He) as [H | H].
      * apply contains_skip. apply contains_later. apply contains_weaken.
        unfold cs. apply contains_skip. rewrite Hl in H.
        apply (join_contains _ e); [exact H |].
        destruct (declaration_const e) as [rest ->].
        apply (contains_append (const_text e) EmptyString rest).
      * rewrite Hc in H. apply contains_insert; [| exact H].
        apply const_text_lacks; auto using word_not_semicolon.
        rewrite forallb_forall in Hid. now apply Hid.
    + intro Htok. rewrite Hc in Htok.
      destruct (block_ends_with_nl (l :: ls)
                  (nls ++ "// Define values for validation")) as [mid Hmid].
      assert (Hcs : cs = mid ++ nls).
      { unfold cs, header. rewrite <- Hmid. now rewrite !append_assoc. }
      rewrite Hcs, append_assoc. unfold nls. cbn [append].
      now apply finds_isin_insert.
Qed.


Lemma lookup_store (path content : string) (fs : list (string * string)) :
  lookup path (store path content fs) = Some content.
Proof.
  induction fs as [| [p c] fs IH]; simpl.
  - now rewrite String.eqb_refl.
  - destruct (String.eqb p path) eqn:E; simpl; now rewrite E.
Qed.


End SecondRun.

Section Idempotence.

Import Chars Str Re EnumFixer.


Lemma identifiers_plain (names : list string) :
  forallb identifier names = true -> forallb plain names = true.
Proof.
  intro H. rewrite forallb_forall in H |- *.
  intros x Hx. apply identifier_plain. auto.
Qed.


End Idempotence.



(** * Further properties of the bulk fixer *)

Section BulkReport.

Import Str BulkFixer.

Lemma read_same_files (path : string) (w1 w2 : world) :
  files w1 = files w2 -> read path w1 = read path w2.
Proof. unfold read. now intros ->. Qed.

Lemma loop_body_stderr (w : world) (ts_file : string) :
  stderr (loop_body w ts_file)
  = (stderr w
     ++ (if contains "node_modules" ts_file then []
         else match read ts_file w with
              | inl _ => []
              | inr e =>
                  [("Error processing " ++ ts_file ++ ": " ++ exn_text e)%string]
              end))%list.
Proof.
  unfold loop_body. destruct (contains "node_modules" ts_file).
  - now rewrite app_nil_r.
  - destruct (try_block_cases ts_file w) as [[c [Hr H]] | [e [Hr H]]];
      rewrite H, Hr; simpl; [now rewrite app_nil_r | reflexivity].
Qed.

(** The report of the bulk fixer: standard error receives, in the order
    of the traversal, one line for each file that cannot be read and whose
    path does not hold [node_modules], and nothing else; a file under the
    dependency directory is never opened, readable or not. *)
Theorem main_error_report :
  forall (rglob : list string) (w : world),
    stderr (main rglob w)
    = (stderr w
       ++ flat_map
            (fun ts_file =>
               if contains "node_modules" ts_file then []
               else match read ts_file w with
                    | inl _ => []
                    | inr e =>
                        [("Error processing " ++ ts_file ++ ": "
                          ++ exn_text e)%string]
                    end)
            rglob)%list.
Proof.
  intros rglob. unfold main.
  induction rglob as [| f rest IH]; intro w; simpl.
  - now rewrite app_nil_r.
  - rewrite IH, loop_body_stderr, <- app_assoc. f_equal. f_equal.
    apply flat_map_ext. intro g.
    destruct (contains "node_modules" g); [reflexivity |].
    rewrite (read_same_files g (loop_body w f) w); [reflexivity |].
    apply loop_body_frame.
Qed.

End BulkReport.

(** * Further properties of the targeted decorator fixer *)

Section FileFrame.

Import Str Re EnumFixer.

Lemma store_paths (path content : string) (fs : list (string * string)) :
  lookup path fs <> None -> map fst (store path content fs) = map fst fs.
Proof.
  induction fs as [| [p c] fs IH]; simpl; [congruence |].
  destruct (String.eqb p path); intro H; simpl; [reflexivity |].
  now rewrite IH.
Qed.

Lemma lookup_store_other (p path content : string)
    (fs : list (string * string)) :
  p <> path -> lookup p (store path content fs) = lookup p fs.
Proof.
  intro Hp. induction fs as [| [q c] fs IH]; simpl.
  - destruct (String.eqb_spec path p); [congruence | reflexivity].
  - destruct (String.eqb_spec q path) as [-> | Hq]; simpl.
    + destruct (String.eqb_spec path p); [congruence | reflexivity].
    + destruct (String.eqb q p); [reflexivity | exact IH].
Qed.

Lemma fix_file_cases (filepath : string) (w w' : world) (b : bool) :
  fix_file filepath w = Some (b, w') ->
  (b = false /\ exists line, w' = print line w)
  \/ (b = true /\ exists content,
        lookup filepath (files w) <> None
        /\ w' = print ("FIXED: " ++ filepath) (write_text filepath content w)).
Proof.
  unfold fix_file. destruct (lookup filepath (files w)) as [c |] eqn:E.
  - destruct (fix_content c) as [[reason | c'] |]; intro H;
      [| | discriminate]; injection H as <- <-.
    + left. split; [reflexivity |]. eexists. reflexivity.
    + right. split; [reflexivity |]. exists c'. split; [congruence |].
      reflexivity.
  - intro H. injection H as <- <-. left. split; [reflexivity |].
    eexists. reflexivity.
Qed.

Lemma fix_file_effects (filepath : string) (w w' : world) (b : bool) :
    fix_file filepath w = Some (b, w') ->
    map fst (files w') = map fst (files w)
    /\ (forall p, p <> filepath ->
                  lookup p (files w') = lookup p (files w))
    /\ List.length (stdout w') = S (List.length (stdout w))
    /\ List.length (written w')
       = List.length (written w) + (if b then 1 else 0)
    /\ (forall entry, In entry (written w') ->
                      In entry (written w) \/ fst entry = filepath).
Proof.
  intros H.
  apply fix_file_cases in H as [[-> [line ->]] | [-> [c [Hex ->]]]];
    cbn [files written stdout print write_text].
  - repeat split; auto; rewrite ?length_app; simpl; lia.
  - repeat split; try (rewrite ?length_app; simpl; lia).
    + now apply store_paths.
    + intros p Hp. now apply lookup_store_other.
    + intros entry Hin. apply in_app_or in Hin as [Hin | [<- | []]]; auto.
Qed.

(** What one call of [fix_file] leaves alone: it never creates, renames
    or removes a file, never changes a file other than the one it was
    given, prints exactly one line, and calls [write_text] once when it
    returns [True] and never when it returns [False]. *)
Theorem fix_file_frame :
  forall (filepath : string) (w w' : world) (b : bool),
    fix_file filepath w = Some (b, w') ->
    map fst (files w') = map fst (files w)
    /\ (forall p, p <> filepath ->
                  lookup p (files w') = lookup p (files w))
    /\ List.length (stdout w') = S (List.length (stdout w))
    /\ List.length (written w')
       = List.length (written w) + (if b then 1 else 0)
    /\ (forall entry, In entry (written w') ->
                      In entry (written w) \/ fst entry = filepath).
Proof. intros filepath w w' b. apply fix_file_effects. Qed.

Lemma main_loop_frame (paths : list string) :
  forall (fixed fixed' : nat) (w w' : world),
    main_loop paths fixed w = Some (fixed', w') ->
    map fst (files w') = map fst (files w)
    /\ (forall p, ~ In p paths ->
                  lookup p (files w') = lookup p (files w))
    /\ List.length (stdout w') = List.length (stdout w) + List.length paths
    /\ List.length (written w') + fixed = List.length (written w) + fixed'.
Proof.
  induction paths as [| f rest IH]; intros fixed fixed' w w' H; simpl in H.
  - injection H as <- <-. repeat split; auto.
  - destruct (fix_file f w) as [[b w1] |] eqn:E; [| discriminate].
    pose proof (fix_file_effects f w w1 b E) as [F1 [F2 [F3 [F4 _]]]].
    destruct b; apply IH in H as [G1 [G2 [G3 G4]]];
      (split; [congruence |]);
      (split; [intros p Hp; rewrite G2, F2; auto; intro; apply Hp;
               simpl; auto |]);
      simpl; lia.
Qed.

(** A run of [main] of the targeted fixer that ends: one status line for
    each of the thirteen listed paths, then the summary line, whose count
    is the number of calls of [write_text] made; no file is created or
    removed, and a file that is not listed keeps its text. *)
Theorem main_report :
  forall (w w' : world),
    main w = Some w' ->
    exists fixed : nat,
      List.length (stdout w') = List.length (stdout w) + 14
      /\ last (stdout w') EmptyString
         = nls ++ "Fixed " ++ NilEmpty.string_of_uint (Nat.to_uint fixed)
           ++ " files!"
      /\ List.length (written w') = List.length (written w) + fixed
      /\ map fst (files w') = map fst (files w)
      /\ (forall p, ~ In p FILES ->
                    lookup p (files w') = lookup p (files w)).
Proof.
  intros w w' H. unfold main in H.
  destruct (main_loop FILES 0 w) as [[fixed w1] |] eqn:E; [| discriminate].
  injection H as <-. apply main_loop_frame in E as [G1 [G2 [G3 G4]]].
  exists fixed. cbn [files written stdout print].
  split; [rewrite length_app, G3; simpl; lia |].
  split; [apply last_last |].
  split; [lia |]. auto.
Qed.

End FileFrame.

Lemma fix_file_frame_witness :
  exists w',
    EnumFixer.fix_file Samples.dto_path
      (EnumFixer.World
         [("other.ts", "@IsEnum(Status)"); (Samples.dto_path, Samples.bare_dto)]
         [] [])
    = Some (true, w')
    /\ map fst (EnumFixer.files w') = ["other.ts"; Samples.dto_path]
    /\ EnumFixer.lookup "other.ts" (EnumFixer.files w') = Some "@IsEnum(Status)"
    /\ List.length (EnumFixer.written w') = 1.
Proof.
  eexists. split; [vm_compute; reflexivity |].
  match goal with
  | |- context [EnumFixer.files ?w] =>
      destruct (fix_file_frame Samples.dto_path
                  (EnumFixer.World
                     [("other.ts", "@IsEnum(Status)");
                      (Samples.dto_path, Samples.bare_dto)] [] [])
                  w true)
        as [F1 [F2 [_ [F4 _]]]]
  end.
  - vm_compute. reflexivity.
  - split; [exact F1 |]. split; [| exact F4].
    rewrite F2; [reflexivity |]. vm_compute. discriminate.
Defined.

Lemma main_report_witness :
  exists w',
    EnumFixer.main (Samples.enum_world Samples.bare_dto) = Some w'
    /\ exists fixed : nat,
         List.length (EnumFixer.stdout w') = 0 + 14
         /\ last (EnumFixer.stdout w') EmptyString
            = EnumFixer.nls ++ "Fixed "
              ++ NilEmpty.string_of_uint (Nat.to_uint fixed) ++ " files!"
         /\ List.length (EnumFixer.written w') = 0 + fixed
         /\ map fst (EnumFixer.files w') = [Samples.dto_path]
         /\ (forall p, ~ In p EnumFixer.FILES ->
                       EnumFixer.lookup p (EnumFixer.files w')
                       = EnumFixer.lookup p [(Samples.dto_path, Samples.bare_dto)]).
Proof.
  eexists. split; [vm_compute; reflexivity |].
  apply (main_report (Samples.enum_world Samples.bare_dto)).
  vm_compute. reflexivity.
Defined.

Section StepThree.

Import Chars Str Re EnumFixer.

Lemma mfree_no_occurrence (r : regex) (x s : string) :
  (forall b, eats r x b) -> mfree r s -> contains x s = false.
Proof.
  intros He Hfree. destruct (contains x s) eqn:E; [| reflexivity].
  apply contains_split in E as [a [b ->]].
  pose proof (eats_match_at r x b None (He b)) as H.
  rewrite (Hfree a (x ++ b) None eq_refl) in H. discriminate.
Qed.

Lemma replace_decorators_mfree_id (enums : list string) (content : string) :
  (forall e, In e enums ->
             mfree (simple_re e) content /\ mfree (array_re e) content) ->
  replace_decorators enums content = content.
Proof.
  intro Hsel. unfold replace_decorators.
  induction enums as [| e es IH]; [reflexivity |].
  cbn [fold_left]. unfold replace_enum at 2.
  destruct (Hsel e (or_introl eq_refl)) as [Hs Ha].
  rewrite (sub_mfree _ _ _ Hs), (sub_mfree _ _ _ Ha).
  apply IH. intros e' He'. apply Hsel. now right.
Qed.

Lemma no_usage_mfree (e : string) (r : regex) (s : string) :
  usage_re e r ->
  (forall a, usage e a -> contains a s = false) ->
  mfree r s.
Proof.
  intros Hr Hno u v p Hs.
  destruct (match_at r p v) as [h |] eqn:E; [| reflexivity].
  apply match_at_sound in E as [a [v' [Hv [Ha _]]]].
  apply (usage_re_lang _ _ _ Hr) in Ha. apply Hno in Ha.
  subst s v. now rewrite contains_append in Ha.
Qed.

(** Step 3, run for identifiers, leaves a text as it is when the text
    holds none of the two recognised call shapes for any of them: no
    [@IsEnum(E)] and no array form, whatever the blanks.  Calls of another
    shape, as [@IsEnum(E, { message: ... })], do not count. *)
Theorem replace_decorators_without_usage :
  forall (enums : list string) (content : string),
    forallb identifier enums = true ->
    (forall e, In e enums ->
       contains ("@IsEnum(" ++ e ++ ")") content = false
       /\ forall w1 w2 w3 w4,
            blank w1 = true -> blank w2 = true -> blank w3 = true ->
            blank w4 = true ->
            contains (array_usage e w1 w2 w3 w4) content = false) ->
    replace_decorators enums content = content.
Proof.
  intros enums content _ Hno. apply replace_decorators_mfree_id.
  intros e He. destruct (Hno e He) as [Hs Ha].
  split; (eapply no_usage_mfree; [(now left) || (now right) |]).
  - intros a [-> | [w1 [w2 [w3 [w4 [H1 [H2 [H3 [H4 ->]]]]]]]]]; auto.
  - intros a [-> | [w1 [w2 [w3 [w4 [H1 [H2 [H3 [H4 ->]]]]]]]]]; auto.
Qed.

(** After step 3 no call of one of the two recognised shapes is left for
    any of the identifiers it was run for: neither [@IsEnum(E)] nor the
    array form with any blanks occurs in the result. *)
Theorem replace_decorators_leaves_no_usage :
  forall (enums : list string) (content e : string),
    forallb identifier enums = true ->
    In e enums ->
    contains ("@IsEnum(" ++ e ++ ")") (replace_decorators enums content)
    = false
    /\ forall w1 w2 w3 w4,
         blank w1 = true -> blank w2 = true -> blank w3 = true ->
         blank w4 = true ->
         contains (array_usage e w1 w2 w3 w4)
           (replace_decorators enums content) = false.
Proof.
  intros enums content e Hid Hin. split.
  - apply (mfree_no_occurrence (simple_re e)).
    + intro b. apply simple_re_eats.
    + apply (replace_decorators_mfree e); auto. now left.
  - intros w1 w2 w3 w4 H1 H2 H3 H4.
    apply (mfree_no_occurrence (array_re e)).
    + intro b. now apply array_re_eats.
    + apply (replace_decorators_mfree e); auto. now right.
Qed.

(** Step 3 is idempotent on identifiers: run again on its own result, for
    the same names, it changes nothing. *)
Theorem replace_decorators_idempotent :
  forall (enums : list string) (content : string),
    forallb identifier enums = true ->
    replace_decorators enums (replace_decorators enums content)
    = replace_decorators enums content.
Proof.
  intros enums content Hid. apply replace_decorators_mfree_id.
  intros e He. split; apply (replace_decorators_mfree e); auto;
    [now left | now right].
Qed.

Lemma array_re_at_isin (E s : string) (p : option ascii) :
  match_at (array_re E) p (String "@" ("IsIn(" ++ s)) = None.
Proof. unfold match_at, array_re, seq. reflexivity. Qed.

(** The simple case of step 3: wherever [@IsEnum(E)] stands for an
    identifier [E], step 3 puts [@IsIn(EValues)] in its place and treats
    the text before and the text behind on their own. *)
Theorem simple_usage_rewritten :
  forall (enum_name before rest : string),
    identifier enum_name = true ->
    replace_enum (before ++ ("@IsEnum(" ++ enum_name ++ ")") ++ rest)
      enum_name
    = replace_enum before enum_name
      ++ "@IsIn(" ++ enum_name ++ "Values)"
      ++ replace_enum rest enum_name.
Proof.
  intros E before rest He. unfold replace_enum.
  set (S1 := sub (simple_re E) (simple_repl E)).
  set (S2 := sub (array_re E) (array_repl E)).
  assert (H1 : S1 (before ++ ("@IsEnum(" ++ E ++ ")") ++ rest)
               = S1 before ++ simple_repl E ++ S1 rest).
  { unfold S1.
    change (("@IsEnum(" ++ E ++ ")") ++ rest)
      with (String "@" (("IsEnum(" ++ E ++ ")") ++ rest)).
    rewrite (sub_split_at E (simple_re E) (simple_repl E) _
               (or_introl eq_refl) He before).
    f_equal.
    change (String "@" (("IsEnum(" ++ E ++ ")") ++ rest))
      with (String "@" ("IsEnum(" ++ E ++ ")") ++ rest).
    apply (sub_at_match _ _ _ _ _ None (blind_simple_re E)).
    change (S (length ("IsEnum(" ++ E ++ ")")))
      with (length ("@IsEnum(" ++ E ++ ")")).
    apply (eats_match_at (simple_re E) ("@IsEnum(" ++ E ++ ")") rest None).
    apply simple_re_eats. }
  rewrite H1. unfold simple_repl.
  change (("@IsIn(" ++ E ++ "Values)") ++ S1 rest)
    with (String "@" (("IsIn(" ++ E ++ "Values)") ++ S1 rest)).
  unfold S2 at 1.
  rewrite (sub_split_at E (array_re E) (array_repl E) _
             (or_intror eq_refl) He (S1 before)).
  fold S2. f_equal.
  unfold S2 at 1.
  rewrite (sub_copy _ _ _ _ (blind_array_re E));
    [| rewrite append_assoc; apply array_re_at_isin].
  unfold sub.
  rewrite (sub_from_lacking _ _ "@" (blind_array_re E) (array_re_opens E)).
  - fold S2. cbn [append]. now rewrite !append_assoc.
  - rewrite !lacks_append, (identifier_lacks_at _ He). reflexivity.
Qed.

(** Step 3 takes nothing away that steps 1 and 2 rely on: the token
    [IsIn] and the constant of an identifier are still in the text after
    it. *)
Theorem replace_decorators_keeps :
  forall (enums : list string) (content : string),
    forallb identifier enums = true ->
    (search isin_re content <> None ->
     search isin_re (replace_decorators enums content) <> None)
    /\ (forall e, identifier e = true ->
                  contains ("const " ++ e ++ "Values") content = true ->
                  contains ("const " ++ e ++ "Values")
                    (replace_decorators enums content) = true).
Proof.
  intros enums content Hid. split.
  - intro H. apply search_finds. apply replace_decorators_keeps_token.
    now apply search_finds.
  - intros e He Hc. now apply (replace_decorators_keeps_const e).
Qed.

(** Step 2 is idempotent on identifiers: run again on its own result, it
    inserts nothing. *)
Theorem add_constants_idempotent :
  forall (enums : list string) (content : string),
    forallb identifier enums = true ->
    add_constants enums (add_constants enums content)
    = add_constants enums content.
Proof.
  intros enums content Hid.
  destruct (last_import_match content) as [m |] eqn:Hm.
  - apply add_constants_nothing_lacking, lacking_nil.
    apply (add_constants_result enums content Hid). congruence.
  - assert (H : add_constants enums content = content)
      by (unfold add_constants; now rewrite Hm).
    now rewrite !H.
Qed.

End StepThree.

Lemma array_usage_holds_each (e w1 w2 w3 w4 : string) :
  Str.contains "each:" (array_usage e w1 w2 w3 w4) = true.
Proof.
  unfold array_usage.
  replace ("@IsEnum(" ++ e ++ "," ++ w1 ++ "{" ++ w2 ++ "each:" ++ w3
           ++ "true" ++ w4 ++ "})")
    with (("@IsEnum(" ++ e ++ "," ++ w1 ++ "{" ++ w2) ++ "each:"
          ++ (w3 ++ "true" ++ w4 ++ "})"))
    by now rewrite !append_assoc.
  apply contains_append.
Qed.

Lemma replace_decorators_without_usage_witness :
  EnumFixer.replace_decorators ["Role"] Samples.leftover_dto
  = Samples.leftover_dto.
Proof.
  apply replace_decorators_without_usage; [reflexivity |].
  intros e [<- | []]. split; [vm_compute; reflexivity |].
  intros w1 w2 w3 w4 _ _ _ _.
  destruct (Str.contains (array_usage "Role" w1 w2 w3 w4)
              Samples.leftover_dto) eqn:E; [| reflexivity].
  pose proof (contains_trans _ _ _
                (array_usage_holds_each "Role" w1 w2 w3 w4) E) as H.
  vm_compute in H. discriminate H.
Defined.

Lemma replace_decorators_leaves_no_usage_witness :
  Str.contains ("@IsEnum(" ++ "Status" ++ ")")
    (EnumFixer.replace_decorators ["Role"; "Status"] Samples.guarded_dto)
  = false
  /\ forall w1 w2 w3 w4,
       blank w1 = true -> blank w2 = true -> blank w3 = true ->
       blank w4 = true ->
       Str.contains (array_usage "Status" w1 w2 w3 w4)
         (EnumFixer.replace_decorators ["Role"; "Status"] Samples.guarded_dto)
       = false.
Proof.
  apply replace_decorators_leaves_no_usage; [reflexivity |].
  right. now left.
Defined.

Lemma replace_decorators_idempotent_witness :
  EnumFixer.replace_decorators ["Status"]
    (EnumFixer.replace_decorators ["Status"] Samples.tight_dto)
  = EnumFixer.replace_decorators ["Status"] Samples.tight_dto.
Proof. apply replace_decorators_idempotent. reflexivity. Defined.

Lemma simple_usage_rewritten_witness :
  EnumFixer.replace_enum
    "  @IsEnum(Role) role: Role; @IsEnum(RoleType) kind: RoleType;" "Role"
  = "  @IsIn(RoleValues) role: Role; @IsEnum(RoleType) kind: RoleType;".
Proof.
  refine (eq_trans
            (simple_usage_rewritten "Role" "  "
               " role: Role; @IsEnum(RoleType) kind: RoleType;" eq_refl) _).
  vm_compute. reflexivity.
Defined.

Lemma replace_decorators_keeps_witness :
  Re.search EnumFixer.isin_re
    (EnumFixer.replace_decorators ["Status"] Samples.guarded_dto_fixed)
  <> None
  /\ Str.contains ("const " ++ "Status" ++ "Values")
       (EnumFixer.replace_decorators ["Status"] Samples.guarded_dto_fixed)
     = true.
Proof.
  destruct (replace_decorators_keeps ["Status"] Samples.guarded_dto_fixed
              eq_refl) as [Htok Hconst].
  split.
  - apply Htok. vm_compute. discriminate.
  - apply Hconst; vm_compute; reflexivity.
Defined.

Lemma add_constants_idempotent_witness :
  EnumFixer.add_constants ["Status"]
    (EnumFixer.add_constants ["Status"] Samples.bare_dto)
  = EnumFixer.add_constants ["Status"] Samples.bare_dto.
Proof. apply add_constants_idempotent. reflexivity. Defined.

(** * The imported names *)

Section ImportedNames.

Import Chars Str Re EnumFixer.

Lemma split_nonempty (sep : ascii) (s : string) : split sep s <> [].
Proof.
  destruct s as [| c s]; simpl; [discriminate |].
  destruct (Ascii.eqb c sep); [discriminate |].
  destruct (split sep s); discriminate.
Qed.

Lemma split_cons_other (sep c : ascii) (s : string) :
  Ascii.eqb c sep = false ->
  exists h t, split sep s = h :: t /\ split sep (String c s) = String c h :: t.
Proof.
  intro Hc. simpl. rewrite Hc.
  destruct (split sep s) as [| h t] eqn:E; [now apply split_nonempty in E |].
  now exists h, t.
Qed.

(** Splitting at a separator splits the text around it. *)
Lemma split_append_sep (sep : ascii) (a b : string) :
  split sep (a ++ String sep b) = (split sep a ++ split sep b)%list.
Proof.
  induction a as [| c a IH].
  - simpl. now rewrite Ascii.eqb_refl.
  - cbn [append]. destruct (Ascii.eqb c sep) eqn:Hc.
    + simpl. rewrite Hc, IH. reflexivity.
    + destruct (split_cons_other sep c a Hc) as [h [t [E1 E2]]].
      destruct (split_cons_other sep c (a ++ String sep b) Hc)
        as [h' [t' [E1' E2']]].
      rewrite E2, E2'. rewrite IH, E1 in E1'. simpl in E1'.
      now injection E1' as <- <-.
Qed.

Lemma split_lacking (sep : ascii) (w : string) :
  lacks sep w = true -> split sep w = [w].
Proof.
  induction w as [| c w IH]; intro H; [reflexivity |].
  rewrite lacks_cons in H. apply andb_true_iff in H as [Hc H].
  apply negb_true_iff in Hc. rewrite Ascii.eqb_sym in Hc.
  simpl. rewrite Hc, (IH H). reflexivity.
Qed.

Lemma split_pieces_lack (sep : ascii) (s piece : string) :
  In piece (split sep s) -> lacks sep piece = true.
Proof.
  revert piece. induction s as [| c s IH]; intros piece Hin.
  - destruct Hin as [<- | []]. reflexivity.
  - destruct (Ascii.eqb c sep) eqn:Hc.
    + simpl in Hin. rewrite Hc in Hin.
      destruct Hin as [<- | Hin]; [reflexivity | now apply IH].
    + destruct (split_cons_other sep c s Hc) as [h [t [E1 E2]]].
      rewrite E2 in Hin. destruct Hin as [<- | Hin].
      * rewrite lacks_cons, Ascii.eqb_sym, Hc. apply IH.
        rewrite E1. now left.
      * apply IH. rewrite E1. now right.
Qed.

Lemma lstrip_blank (w : string) : blank w = true -> lstrip w = EmptyString.
Proof.
  induction w as [| c w IH]; intro H; [reflexivity |].
  unfold blank in H. simpl in H. apply andb_true_iff in H as [Hc H].
  simpl. rewrite Hc. now apply IH.
Qed.

Lemma space_not_comma (c : ascii) :
  is_space c = true -> negb (Ascii.eqb "," c) = true.
Proof.
  revert c.
  assert (H : forall c, (negb (is_space c) || negb (Ascii.eqb "," c)) = true).
  { apply ascii_cases. vm_compute. reflexivity. }
  intros c Hc. specialize (H c). now rewrite Hc in H.
Qed.

(** A comma after the last name of the import list, the way formatters
    leave it, makes the empty text one of the imported names, and the
    empty name is selected as soon as the file holds any [@IsEnum(]. *)
Theorem trailing_comma_selects_empty_name :
  forall (m : match_obj) (names w content : string),
    group1 m = Some (names ++ "," ++ w) ->
    blank w = true ->
    contains "@IsEnum(" content = true ->
    In EmptyString (enums_to_fix (prisma_enums m) content).
Proof.
  intros m names w content Hg Hw Hc.
  unfold enums_to_fix. apply filter_In. split; [| exact Hc].
  unfold prisma_enums, group. rewrite Hg.
  change (names ++ "," ++ w) with (names ++ String "," w).
  rewrite split_append_sep, map_app. apply in_or_app. right.
  rewrite split_lacking by apply (forallb_weaken _ _ _ space_not_comma Hw).
  left. unfold strip. now rewrite (lstrip_blank _ Hw).
Qed.

Lemma lacks_lstrip (a : ascii) (s : string) :
  lacks a s = true -> lacks a (lstrip s) = true.
Proof.
  induction s as [| c s IH]; intro H; [reflexivity |].
  simpl. destruct (is_space c); [| exact H].
  rewrite lacks_cons in H. apply andb_true_iff in H as [_ H]. now apply IH.
Qed.

Lemma lacks_rstrip (a : ascii) (s : string) :
  lacks a s = true -> lacks a (rstrip s) = true.
Proof.
  induction s as [| c s IH]; intro H; [reflexivity |].
  rewrite lacks_cons in H. apply andb_true_iff in H as [Hc H].
  simpl. destruct (rstrip s) as [| d r] eqn:E.
  - destruct (is_space c); [reflexivity |].
    now rewrite lacks_cons, Hc.
  - rewrite lacks_cons, Hc. now apply IH.
Qed.

Lemma rstrip_idempotent (s : string) : rstrip (rstrip s) = rstrip s.
Proof.
  induction s as [| c s IH]; [reflexivity |].
  simpl. destruct (rstrip s) as [| d r] eqn:E.
  - destruct (is_space c) eqn:Hc; [reflexivity |]. simpl. now rewrite Hc.
  - rewrite rstrip_cons by (left; rewrite IH; discriminate).
    now rewrite IH.
Qed.

Lemma lstrip_head (s : string) (c : ascii) (t : string) :
  lstrip s = String c t -> is_space c = false.
Proof.
  induction s as [| d s IH]; simpl; [discriminate |].
  destruct (is_space d) eqn:Hd; [exact IH |].
  intro H. now injection H as <- _.
Qed.

(** The names read from the import list: none holds a comma, none starts
    and none ends with a blank. *)
Theorem imported_names_trimmed :
  forall (m : match_obj) (name : string),
    In name (prisma_enums m) ->
    lacks "," name = true
    /\ (forall c t, name = String c t -> is_space c = false)
    /\ rstrip name = name.
Proof.
  intros m name Hin. unfold prisma_enums in Hin.
  apply in_map_iff in Hin as [piece [<- Hin]].
  apply split_pieces_lack in Hin. unfold strip.
  split; [now apply lacks_rstrip, lacks_lstrip |].
  split; [| apply rstrip_idempotent].
  intros c t H.
  destruct (lstrip piece) as [| d r] eqn:E; [discriminate |].
  pose proof (lstrip_head _ _ _ E) as Hd.
  rewrite rstrip_cons in H by now right.
  now injection H as <- _.
Qed.

End ImportedNames.

Lemma trailing_comma_selects_empty_name_witness :
  In EmptyString
    (EnumFixer.enums_to_fix
       (EnumFixer.prisma_enums
          (Re.MatchObj 0 46 "import { Role, Status, } from '@prisma/client'"
             (Some (" Role, Status" ++ "," ++ " "))))
       "import { Role, Status, } from '@prisma/client'; @IsEnum(Kind) k: Kind;").
Proof.
  apply (trailing_comma_selects_empty_name _ " Role, Status" " "); reflexivity.
Defined.

Lemma imported_names_trimmed_witness :
  lacks "," "Status" = true
  /\ (forall c t, "Status" = String c t -> Chars.is_space c = false)
  /\ Str.rstrip "Status" = "Status".
Proof.
  apply (imported_names_trimmed
           (Re.MatchObj 0 46 "import { Role, Status, } from '@prisma/client'"
              (Some " Role, Status, "))).
  vm_compute. auto.
Defined.

(** * What a fixed file holds *)

Section FixedFile.

Import Chars Str Re EnumFixer.

(** When [fix_file] answers [True] for a file whose selected names are
    identifiers and whose text, after step 1, has an import statement,
    the text it leaves in the file holds the constant of every selected
    name and no [@IsEnum(E)] for any of them; and when the token [IsIn]
    stood in the text after step 1, it stands in the file. *)
Theorem fixed_file_postcondition :
  forall (filepath content : string) (w w' : world) (m : match_obj),
    lookup filepath (files w) = Some content ->
    search prisma_import_re content = Some m ->
    forallb identifier (enums_to_fix (prisma_enums m) content) = true ->
    last_import_match (add_isin_import content) <> None ->
    fix_file filepath w = Some (true, w') ->
    exists final,
      lookup filepath (files w') = Some final
      /\ (forall e, In e (enums_to_fix (prisma_enums m) content) ->
                    contains ("const " ++ e ++ "Values") final = true
                    /\ contains ("@IsEnum(" ++ e ++ ")") final = false)
      /\ (search isin_re (add_isin_import content) <> None ->
          search isin_re final <> None).
Proof.
  intros filepath content w w' m Hfile Hm Hid Hlast Hrun.
  unfold fix_file in Hrun. rewrite Hfile in Hrun.
  unfold fix_content in Hrun. rewrite Hm in Hrun.
  destruct (negb (contains marker content)); [discriminate |].
  set (selected := enums_to_fix (prisma_enums m) content) in *.
  destruct selected as [| e0 es] eqn:Hsel; [discriminate |].
  rewrite <- Hsel in *.
  assert (Hne : match selected with [] => false | _ => true end = true)
    by now rewrite Hsel.
  rewrite (identifiers_plain _ Hid) in Hrun.
  replace (match selected with
           | [] => Some (Skip "no @IsEnum with Prisma enums")
           | _ :: _ =>
               Some (Fixed (replace_decorators selected
                              (add_constants selected
                                 (add_isin_import content))))
           end)
    with (Some (Fixed (replace_decorators selected
                         (add_constants selected (add_isin_import content)))))
    in Hrun by now rewrite Hsel.
  injection Hrun as <-.
  cbn [files print write_text]. eexists. split; [apply lookup_store |].
  destruct (add_constants_result selected (add_isin_import content) Hid Hlast)
    as [Hconst Htok].
  split.
  - intros e He. split.
    + pose proof Hid as Hall. rewrite forallb_forall in Hall.
      apply (replace_decorators_keeps_const e);
        [now apply Hall | exact Hid | now apply Hconst].
    + apply (mfree_no_occurrence (simple_re e)).
      * intro b. apply simple_re_eats.
      * apply (replace_decorators_mfree e); auto. now left.
  - intro H. apply search_finds, replace_decorators_keeps_token, Htok.
    now apply search_finds.
Qed.

End FixedFile.

Lemma fixed_file_postcondition_witness :
  exists final,
    EnumFixer.lookup Samples.dto_path
      (EnumFixer.files
         (EnumFixer.print ("FIXED: " ++ Samples.dto_path)
            (EnumFixer.write_text Samples.dto_path Samples.bare_dto_fixed
               (Samples.enum_world Samples.bare_dto))))
    = Some final
    /\ (forall e, In e ["Status"] ->
                  Str.contains ("const " ++ e ++ "Values") final = true
                  /\ Str.contains ("@IsEnum(" ++ e ++ ")") final = false)
    /\ (Re.search EnumFixer.isin_re
          (EnumFixer.add_isin_import Samples.bare_dto) <> None ->
        Re.search EnumFixer.isin_re final <> None).
Proof.
  apply (fixed_file_postcondition Samples.dto_path Samples.bare_dto
           (Samples.enum_world Samples.bare_dto) _
           (Re.MatchObj 0 39 "import { Status } from '@prisma/client'"
              (Some " Status "))).
  - vm_compute. reflexivity.
  - vm_compute. reflexivity.
  - vm_compute. reflexivity.
  - vm_compute. discriminate.
  - vm_compute. reflexivity.
Defined.

(** * Step 1: the class-validator import *)

Section StepOne.

Import Chars Str Re EnumFixer.

Lemma search_from_sound (r : regex) (m : match_obj) :
  forall s p pos,
    search_from r p pos s = Some m ->
    exists u v, s = u ++ group0 m ++ v /\ lang r (group0 m).
Proof.
  assert (Here : forall s p pos h,
            match_at r p s = Some h ->
            exists u v, s = u ++ group0 (mk_match pos s h) ++ v
                        /\ lang r (group0 (mk_match pos s h))).
  { intros s p pos h E.
    apply match_at_sound in E as [a [v [Hs [Ha Hn]]]].
    assert (Ht : take (fst h) s = a)
      by (rewrite Hn, Hs; apply take_append).
    exists EmptyString, v. cbn [mk_match group0 append]. rewrite Ht.
    now split. }
  induction s as [| c s IH]; intros p pos H; cbn [search_from] in H.
  - destruct (match_at r p EmptyString) as [h |] eqn:E; [| discriminate].
    injection H as <-. now apply (Here _ p).
  - destruct (match_at r p (String c s)) as [h |] eqn:E.
    + injection H as <-. now apply (Here _ p).
    + apply IH in H as [u [v [-> Hl]]]. now exists (String c u), v.
Qed.

Lemma replace_go_absent (old new : string) (s : string) :
  contains old s = false -> replace_go old new 0 s = s.
Proof.
  induction s as [| c s IH]; intro H.
  - simpl in H |- *. rewrite orb_false_r in H. now rewrite H.
  - cbn [contains] in H. apply orb_false_iff in H as [H1 H2].
    cbn [replace_go]. rewrite H1. now rewrite (IH H2).
Qed.

Lemma replace_go_skip (old new a s : string) :
  replace_go old new (length a) (a ++ s) = replace_go old new 0 s.
Proof.
  induction a as [| c a IH]; [reflexivity |].
  cbn [append length replace_go]. exact IH.
Qed.

Lemma replace_first_absent (old new s : string) :
  contains old s = false -> replace_first old new s = s.
Proof.
  induction s as [| c s IH]; intro H.
  - simpl in H |- *. rewrite orb_false_r in H. now rewrite H.
  - cbn [contains] in H. apply orb_false_iff in H as [H1 H2].
    cbn [replace_first]. rewrite H1. now rewrite (IH H2).
Qed.

Lemma replace_first_split (old new s : string) :
  contains old s = true ->
  exists u v, s = u ++ old ++ v /\ replace_first old new s = u ++ new ++ v.
Proof.
  induction s as [| c s IH]; intro H.
  - simpl in H. rewrite orb_false_r in H. exists EmptyString, EmptyString.
    destruct old; [| discriminate]. split; [reflexivity |].
    simpl. now rewrite append_nil_r.
  - destruct (starts_with old (String c s)) eqn:E.
    + exists EmptyString, (drop (length old) (String c s)).
      split; [now apply starts_with_split |].
      cbn [replace_first]. now rewrite E.
    + cbn [contains] in H. rewrite E in H. simpl in H.
      apply IH in H as [u [v [Hs Hr]]].
      exists (String c u), v. split; [simpl; now rewrite <- Hs |].
      cbn [replace_first]. rewrite E, Hr. reflexivity.
Qed.

Lemma replace_first_same (old s : string) : replace_first old old s = s.
Proof.
  destruct (contains old s) eqn:E.
  - destruct (replace_first_split old old s E) as [u [v [Hs Hr]]]. congruence.
  - now apply replace_first_absent.
Qed.


Lemma lacks_not_contains (c : ascii) (old t : string) :
  lacks c t = true -> contains (String c old) t = false.
Proof.
  induction t as [| d t IH]; intro H; [reflexivity |].
  rewrite lacks_cons in H. apply andb_true_iff in H as [Hd H].
  apply negb_true_iff in Hd.
  cbn [contains starts_with]. rewrite Hd, (IH H). reflexivity.
Qed.

Lemma unique_split (c : ascii) (h t x y : string) :
  lacks c h = true -> lacks c t = true ->
  h ++ String c t = x ++ String c y -> h = x /\ t = y.
Proof.
  revert x. induction h as [| d h IH]; intros x Hh Ht E.
  - destruct x as [| e x]; cbn [append] in E.
    + injection E as ->. now split.
    + injection E as <- ->.
      rewrite lacks_append, lacks_cons, Ascii.eqb_refl in Ht.
      now rewrite andb_false_r in Ht.
  - rewrite lacks_cons in Hh. apply andb_true_iff in Hh as [Hd Hh].
    destruct x as [| e x]; cbn [append] in E.
    + injection E as -> _. now rewrite Ascii.eqb_refl in Hd.
    + injection E as <- E. destruct (IH x Hh Ht E) as [-> ->]. now split.
Qed.

(** One occurrence, led by a character that stands nowhere else. *)
Lemma replace_go_once (c : ascii) (old new head t : string) :
  lacks c head = true -> lacks c t = true ->
  replace_go (String c old) new 0 (head ++ String c old ++ t)
  = head ++ new ++ t.
Proof.
  intros Hh Ht. induction head as [| d head IH].
  - cbn [append].
    pose proof (starts_with_append (String c old) t) as E.
    cbn [append] in E. cbn [replace_go length]. rewrite E.
    f_equal. rewrite replace_go_skip.
    apply replace_go_absent. now apply lacks_not_contains.
  - rewrite lacks_cons in Hh. apply andb_true_iff in Hh as [Hd Hh].
    apply negb_true_iff in Hd.
    cbn [append replace_go starts_with]. rewrite Hd. cbn [andb].
    f_equal. now apply IH.
Qed.

Lemma space_not_rbrace (c : ascii) :
  is_space c = true -> negb (Ascii.eqb "}" c) = true.
Proof.
  revert c.
  assert (H : forall c, (negb (is_space c) || negb (Ascii.eqb "}" c)) = true).
  { apply ascii_cases. vm_compute. reflexivity. }
  intros c Hc. specialize (H c). now rewrite Hc in H.
Qed.

Lemma not_char_lacks (c : ascii) (s : string) :
  all_in (not_char c) s = true -> lacks c s = true.
Proof.
  apply forallb_weaken. intros d H. unfold not_char in H.
  now rewrite Ascii.eqb_sym.
Qed.

(** What the class-validator pattern consumes has one closing brace. *)
Lemma validator_import_shape (a : string) :
  lang validator_import_re a ->
  exists head tail,
    a = head ++ String "}" tail
    /\ lacks "}" head = true /\ lacks "}" tail = true.
Proof.
  unfold validator_import_re, seq. cbn [fold_right lang].
  intros [g [a2 [-> [Hg Hrest]]]].
  destruct Hg as [i1 [i2 [-> [Hi Hg]]]].
  destruct Hg as [w1 [i3 [-> [Hw1 Hg]]]].
  destruct Hg as [b1 [i4 [-> [-> Hg]]]].
  destruct Hg as [body [i5 [-> [[_ Hbody] Hg]]]].
  destruct Hg as [c1 [i6 [-> [-> ->]]]].
  destruct Hrest as [w2 [a3 [-> [Hw2 Hrest]]]].
  destruct Hrest as [f1 [a4 [-> [Hf Hrest]]]].
  destruct Hrest as [w3 [a5 [-> [Hw3 Hrest]]]].
  destruct Hrest as [q1 [a6 [-> [Hq ->]]]].
  apply lang_Lit in Hi, Hf, Hq. subst i1 f1 q1.
  exists ("import" ++ w1 ++ "{" ++ body),
         (w2 ++ "from" ++ w3 ++ "'class-validator';").
  cbn [lang] in Hw1, Hw2, Hw3, Hbody.
  assert (L1 : lacks "}" w1 = true)
    by apply (forallb_weaken _ _ w1 space_not_rbrace Hw1).
  assert (L2 : lacks "}" w2 = true)
    by apply (forallb_weaken _ _ w2 space_not_rbrace Hw2).
  assert (L3 : lacks "}" w3 = true)
    by apply (forallb_weaken _ _ w3 space_not_rbrace Hw3).
  pose proof (not_char_lacks _ _ Hbody) as Lb.
  split; [| split].
  - change ("}" ++ "") with "}".
    change ("'class-validator';" ++ "") with "'class-validator';".
    rewrite !append_assoc. reflexivity.
  - rewrite !lacks_append, L1, Lb. reflexivity.
  - rewrite !lacks_append, L2, L3. reflexivity.
Qed.

(** Step 1 either leaves the text alone, or it found no token [IsIn] and
    puts [  IsIn,] and a line feed before the closing brace of an import
    from class-validator. *)
Lemma add_isin_import_cases (content : string) :
  add_isin_import content = content
  \/ (search isin_re content = None
      /\ exists u head v,
           content = u ++ head ++ "} from 'class-validator';" ++ v
           /\ add_isin_import content
              = u ++ head ++ ("  IsIn," ++ nls ++ "} from 'class-validator';")
                  ++ v).
Proof.
  unfold add_isin_import.
  destruct (search isin_re content) eqn:Htok; [now left |].
  destruct (search validator_import_re content) as [m |] eqn:Hm;
    [| now left].
  apply search_from_sound in Hm as [u0 [v0 [Hc Hl]]].
  destruct (contains "} from 'class-validator';" (group0 m)) eqn:Hold.
  - right. split; [reflexivity |].
    apply validator_import_shape in Hl as [head [tail [Hg [Hh Ht]]]].
    apply contains_split in Hold as [x [y Hxy]].
    rewrite Hg in Hxy. cbn [append] in Hxy.
    destruct (unique_split _ _ _ _ _ Hh Ht Hxy) as [<- ->].
    repeat (rewrite lacks_cons in Ht; apply andb_true_iff in Ht as [_ Ht]).
    rename Ht into Hy.
    assert (Hnew : replace "} from 'class-validator';"
                     ("  IsIn," ++ nls ++ "} from 'class-validator';")
                     (group0 m)
                   = head ++ ("  IsIn," ++ nls ++ "} from 'class-validator';")
                       ++ y).
    { rewrite Hg. unfold replace.
      apply (replace_go_once "}" " from 'class-validator';" _ head y Hh Hy). }
    rewrite Hnew.
    assert (Hin : contains (group0 m) content = true)
      by (rewrite Hc; apply contains_append).
    destruct (replace_first_split (group0 m)
                (head ++ ("  IsIn," ++ nls ++ "} from 'class-validator';")
                   ++ y) content Hin) as [u [v [Hs Hr]]].
    exists u, head, (y ++ v). split.
    + rewrite Hs, Hg. cbn [append]. now rewrite !append_assoc.
    + rewrite Hr. now rewrite !append_assoc.
  - left. unfold replace. rewrite (replace_go_absent _ _ _ Hold).
    apply replace_first_same.
Qed.

Lemma inserted_token_found (x y : string) :
  finds isin_re None
    (x ++ ("  IsIn," ++ nls ++ "} from 'class-validator';") ++ y) = true.
Proof.
  change (x ++ ("  IsIn," ++ nls ++ "} from 'class-validator';") ++ y)
    with (x ++ String " " (String " " ("IsIn," ++ nls
                 ++ "} from 'class-validator';" ++ y))).
  replace (x ++ String " " (String " " ("IsIn," ++ nls
                 ++ "} from 'class-validator';" ++ y)))
    with ((x ++ " ") ++ String " " ("IsIn," ++ nls
                 ++ "} from 'class-validator';" ++ y))
    by now rewrite append_assoc.
  apply finds_later. cbn [append finds]. rewrite isin_match_at.
  reflexivity.
Qed.

(** Step 1 is idempotent: once it has run, a second run adds nothing. *)
Theorem add_isin_import_idempotent :
  forall content : string,
    add_isin_import (add_isin_import content) = add_isin_import content.
Proof.
  intro content.
  destruct (add_isin_import_cases content) as [E | [_ [u [h [v [_ ->]]]]]];
    [now rewrite !E |].
  pose proof (inserted_token_found (u ++ h) v) as H.
  rewrite append_assoc in H. apply search_finds in H.
  unfold add_isin_import at 1.
  destruct (search isin_re _); [reflexivity | contradiction].
Qed.

(** When step 1 alters the text, the text had no token [IsIn]; the only
    change is [  IsIn,] and a line feed put before a closing brace that is
    followed by [ from 'class-validator';]; and the token is found
    afterwards. *)
Theorem add_isin_import_inserts :
  forall content : string,
    add_isin_import content <> content ->
    search isin_re content = None
    /\ (exists u head v,
          content = u ++ head ++ "} from 'class-validator';" ++ v
          /\ add_isin_import content
             = u ++ head ++ ("  IsIn," ++ nls ++ "} from 'class-validator';")
                 ++ v)
    /\ search isin_re (add_isin_import content) <> None.
Proof.
  intros content Hchg.
  destruct (add_isin_import_cases content) as [E | [Htok [u [h [v [Hc Hr]]]]]];
    [contradiction |].
  split; [exact Htok |]. split; [now exists u, h, v |].
  rewrite Hr. apply search_finds.
  pose proof (inserted_token_found (u ++ h) v) as H.
  now rewrite append_assoc in H.
Qed.

(** Step 1 relies on the exact text [} from 'class-validator';]: an import
    written with any other spacing between the brace, [from] and the
    package name gets no [IsIn]. *)
Theorem add_isin_import_needs_exact_spacing :
  forall content : string,
    contains "} from 'class-validator';" content = false ->
    add_isin_import content = content.
Proof.
  intros content Hno.
  destruct (add_isin_import_cases content) as [E | [_ [u [h [v [Hc _]]]]]];
    [exact E |].
  rewrite Hc in Hno. rewrite <- append_assoc in Hno.
  now rewrite contains_append in Hno.
Qed.

End StepOne.

Lemma add_isin_import_inserts_witness :
  Re.search EnumFixer.isin_re Samples.guarded_dto = None
  /\ (exists u head v,
        Samples.guarded_dto = u ++ head ++ "} from 'class-validator';" ++ v
        /\ EnumFixer.add_isin_import Samples.guarded_dto
           = u ++ head
               ++ ("  IsIn," ++ EnumFixer.nls ++ "} from 'class-validator';")
               ++ v)
  /\ Re.search EnumFixer.isin_re
       (EnumFixer.add_isin_import Samples.guarded_dto) <> None.
Proof.
  apply (add_isin_import_inserts Samples.guarded_dto).
  vm_compute. discriminate.
Defined.

Lemma add_isin_import_needs_exact_spacing_witness :
  EnumFixer.add_isin_import
    "import { IsEnum }  from 'class-validator'; @IsEnum(Status) one: Status;"
  = "import { IsEnum }  from 'class-validator'; @IsEnum(Status) one: Status;".
Proof.
  apply add_isin_import_needs_exact_spacing. vm_compute. reflexivity.
Defined.

(** * [fix_class_properties] *)

Section ClassProperties.

Import Chars Str BulkFixer.

Lemma concat_cons (sep a : string) (ls : list string) :
  ls <> [] -> String.concat sep (a :: ls) = a ++ sep ++ String.concat sep ls.
Proof. destruct ls; [contradiction | reflexivity]. Qed.

Lemma concat_split (sep : ascii) (s : string) :
  String.concat (String sep EmptyString) (split sep s) = s.
Proof.
  induction s as [| c s IH]; [reflexivity |].
  destruct (Ascii.eqb c sep) eqn:Hc.
  - apply Ascii.eqb_eq in Hc. subst c.
    cbn [split]. rewrite Ascii.eqb_refl.
    rewrite concat_cons by apply split_nonempty. now rewrite IH.
  - destruct (split_cons_other sep c s Hc) as [h [t [E1 E2]]].
    rewrite E2. rewrite E1 in IH. destruct t as [| h2 t].
    + cbn [String.concat] in IH |- *. now rewrite IH.
    + rewrite concat_cons in IH |- * by discriminate.
      now rewrite <- IH.
Qed.

Lemma concat_snoc (sep : string) (ls : list string) (x : string) :
  ls <> [] ->
  String.concat sep (ls ++ [x]) = String.concat sep ls ++ sep ++ x.
Proof.
  induction ls as [| a ls IH]; intro H; [contradiction |].
  destruct ls as [| b ls].
  - reflexivity.
  - change ((a :: b :: ls) ++ [x])%list with (a :: (b :: ls) ++ [x])%list.
    change (String.concat sep (a :: b :: ls))
      with (a ++ sep ++ String.concat sep (b :: ls)).
    change (String.concat sep (a :: (b :: ls) ++ [x])%list)
      with (a ++ sep ++ String.concat sep ((b :: ls) ++ [x])%list).
    rewrite IH by discriminate. now rewrite !append_assoc.
Qed.

Lemma split_concat (sep : ascii) (ls : list string) :
  ls <> [] -> Forall (fun l => lacks sep l = true) ls ->
  split sep (String.concat (String sep EmptyString) ls) = ls.
Proof.
  induction ls as [| a ls IH]; intros Hne Hall; [contradiction |].
  inversion Hall as [| ? ? Ha Hls]; subst.
  destruct ls as [| b ls].
  - cbn [String.concat]. now apply split_lacking.
  - change (String.concat (String sep EmptyString) (a :: b :: ls))
      with (a ++ String sep (String.concat (String sep EmptyString) (b :: ls))).
    rewrite split_append_sep, (split_lacking _ _ Ha), IH;
      [reflexivity | discriminate | exact Hls].
Qed.


Lemma fix_lines_cons (prev : option string) (line : string)
    (rest : list string) :
  fix_lines prev (line :: rest)
  = (if decorated prev && bare_property line
     then replace_first ":" "!:" line else line)
    :: fix_lines (Some line) rest.
Proof.
  unfold decorated, bare_property. cbn [fix_lines].
  destruct prev as [before |]; [| reflexivity].
  now destruct (starts_with "@" (strip before)).
Qed.

Lemma fix_lines_length (ls : list string) :
  forall p, List.length (fix_lines p ls) = List.length ls.
Proof.
  induction ls as [| l ls IH]; intro p; [reflexivity |].
  rewrite fix_lines_cons. cbn [List.length]. now rewrite IH.
Qed.

Lemma fix_lines_nonempty (ls : list string) (p : option string) :
  ls <> [] -> fix_lines p ls <> [].
Proof. destruct ls; [contradiction |]. rewrite fix_lines_cons. discriminate. Qed.

Lemma lacks_replace_first (a : ascii) (old new s : string) :
  lacks a new = true -> lacks a s = true ->
  lacks a (replace_first old new s) = true.
Proof.
  intros Hn Hs. destruct (contains old s) eqn:E.
  - destruct (replace_first_split old new s E) as [u [v [Hu ->]]].
    rewrite Hu in Hs. rewrite !lacks_append in Hs |- *.
    apply andb_true_iff in Hs as [H1 H2].
    apply andb_true_iff in H2 as [_ H2]. now rewrite H1, Hn, H2.
  - now rewrite replace_first_absent.
Qed.

Lemma fix_lines_lack (a : ascii) (ls : list string) :
  lacks a "!:" = true ->
  Forall (fun l => lacks a l = true) ls ->
  forall p, Forall (fun l => lacks a l = true) (fix_lines p ls).
Proof.
  intros Ha H. induction H as [| l ls Hl Hls IH]; intro p; [constructor |].
  rewrite fix_lines_cons. constructor; [| apply IH].
  destruct (decorated p && bare_property l); [| exact Hl].
  now apply lacks_replace_first.
Qed.

Lemma split_lines_lack (sep : ascii) (s : string) :
  Forall (fun l => lacks sep l = true) (split sep s).
Proof. apply Forall_forall. intros l. apply split_pieces_lack. Qed.

Lemma letters_but_append (c : ascii) (a b : string) :
  letters_but c (a ++ b) = (letters_but c a ++ letters_but c b)%list.
Proof.
  unfold letters_but. induction a as [| d a IH]; [reflexivity |].
  cbn [append list_ascii_of_string filter].
  destruct (negb (Ascii.eqb d c)); cbn [app]; now rewrite IH.
Qed.

Lemma letters_but_replace (l : string) :
  letters_but "!" (replace_first ":" "!:" l) = letters_but "!" l.
Proof.
  destruct (contains ":" l) eqn:E.
  - destruct (replace_first_split ":" "!:" l E) as [u [v [Hu ->]]].
    rewrite Hu. now rewrite !letters_but_append.
  - now rewrite replace_first_absent.
Qed.

Lemma letters_but_concat (c : ascii) (sep : string) (ls : list string) :
  forall ls',
    map (letters_but c) ls = map (letters_but c) ls' ->
    letters_but c (String.concat sep ls)
    = letters_but c (String.concat sep ls').
Proof.
  induction ls as [| a ls IH]; intros [| a' ls'] H; try discriminate;
    [reflexivity |].
  cbn [map] in H. injection H as Ha H.
  destruct ls as [| b ls]; destruct ls' as [| b' ls']; try discriminate.
  - exact Ha.
  - rewrite (concat_cons sep a (b :: ls)), (concat_cons sep a' (b' :: ls'))
      by discriminate.
    rewrite !letters_but_append, Ha. f_equal. f_equal. now apply IH.
Qed.

Lemma fix_lines_letters (ls : list string) :
  forall p,
    map (letters_but "!") (fix_lines p ls) = map (letters_but "!") ls.
Proof.
  induction ls as [| l ls IH]; intro p; [reflexivity |].
  rewrite fix_lines_cons. cbn [map]. rewrite IH. f_equal.
  destruct (decorated p && bare_property l); [| reflexivity].
  apply letters_but_replace.
Qed.

(** [fix_class_properties] puts exclamation marks into the text and does
    nothing else: with the exclamation marks left out, the result and the
    argument are the same text, and the result has as many lines as the
    argument. *)
Theorem fix_class_properties_only_adds_marks :
  forall content : string,
    letters_but "!" (fix_class_properties content) = letters_but "!" content
    /\ List.length (split nl (fix_class_properties content))
       = List.length (split nl content).
Proof.
  intro content. unfold fix_class_properties. split.
  - rewrite (letters_but_concat "!" nls _ (split nl content))
      by apply fix_lines_letters.
    unfold nls. now rewrite concat_split.
  - unfold nls. rewrite split_concat.
    + apply fix_lines_length.
    + apply fix_lines_nonempty, split_nonempty.
    + apply fix_lines_lack; [reflexivity | apply split_lines_lack].
Qed.

Lemma starts_with_at_rstrip (x : string) :
  starts_with "@" (rstrip x) = starts_with "@" x.
Proof.
  destruct x as [| c x]; [reflexivity |].
  destruct (Ascii.eqb_spec "@"%char c) as [<- | Hc].
  - rewrite rstrip_cons by now right. reflexivity.
  - apply Ascii.eqb_neq in Hc. cbn [rstrip].
    destruct (rstrip x); [destruct (is_space c) |];
      cbn [starts_with]; now rewrite ?Hc.
Qed.

Lemma decorated_replace (l : string) :
  decorated (Some (replace_first ":" "!:" l)) = decorated (Some l).
Proof.
  unfold decorated, strip. rewrite !starts_with_at_rstrip.
  induction l as [| c l IH]; [reflexivity |].
  cbn [replace_first starts_with].
  destruct (Ascii.eqb_spec ":"%char c) as [<- | Hc].
  - reflexivity.
  - cbn [andb lstrip]. destruct (is_space c); [exact IH | reflexivity].
Qed.

Lemma replaced_has_mark (l : string) :
  contains ":" l = true -> contains "!" (replace_first ":" "!:" l) = true.
Proof.
  intro H. destruct (replace_first_split ":" "!:" l H) as [u [v [_ ->]]].
  change ("!:" ++ v) with ("!" ++ String ":" v). apply contains_append.
Qed.

Lemma fix_lines_again (ls : list string) :
  forall p p',
    decorated p' = decorated p ->
    fix_lines p' (fix_lines p ls) = fix_lines p ls.
Proof.
  induction ls as [| l ls IH]; intros p p' Hp; [reflexivity |].
  rewrite fix_lines_cons.
  destruct (decorated p && bare_property l) eqn:E.
  - rewrite fix_lines_cons. f_equal.
    + apply andb_true_iff in E as [_ E]. unfold bare_property in E |- *.
      apply andb_true_iff in E as [E _]. apply andb_true_iff in E as [E _].
      rewrite (replaced_has_mark _ E). cbn [negb].
      now rewrite andb_false_r, andb_false_r.
    + apply IH. apply decorated_replace.
  - rewrite fix_lines_cons, Hp, E. f_equal. now apply IH.
Qed.

(** [fix_class_properties] is idempotent. *)
Theorem fix_class_properties_idempotent :
  forall content : string,
    fix_class_properties (fix_class_properties content)
    = fix_class_properties content.
Proof.
  intro content. unfold fix_class_properties at 1 2. unfold nls.
  rewrite split_concat.
  - now rewrite fix_lines_again.
  - apply fix_lines_nonempty, split_nonempty.
  - apply fix_lines_lack; [reflexivity | apply split_lines_lack].
Qed.

Lemma split_keeps_lack (a sep : ascii) (s piece : string) :
  lacks a s = true -> In piece (split sep s) -> lacks a piece = true.
Proof.
  revert piece. induction s as [| c s IH]; intros piece Hs Hin.
  - destruct Hin as [<- | []]. reflexivity.
  - rewrite lacks_cons in Hs. apply andb_true_iff in Hs as [Hc Hs].
    destruct (Ascii.eqb c sep) eqn:E.
    + cbn [split] in Hin. rewrite E in Hin.
      destruct Hin as [<- | Hin]; [reflexivity | now apply IH].
    + destruct (split_cons_other sep c s E) as [h [t [E1 E2]]].
      rewrite E2 in Hin. destruct Hin as [<- | Hin].
      * rewrite lacks_cons, Hc. apply IH; [exact Hs |].
        rewrite E1. now left.
      * apply IH; [exact Hs |]. rewrite E1. now right.
Qed.

Lemma fix_lines_plain (ls : list string) :
  (forall l, In l ls -> lacks "@" l = true)
  \/ (forall l, In l ls -> lacks ":" l = true) ->
  fix_lines None ls = ls.
Proof.
  intro H.
  assert (G : forall p,
            decorated p = false \/ (forall l, In l ls -> lacks ":" l = true) ->
            (forall l, In l ls -> lacks "@" l = true)
            \/ (forall l, In l ls -> lacks ":" l = true) ->
            fix_lines p ls = ls).
  { clear H. induction ls as [| l ls IH]; intros p Hp H; [reflexivity |].
    rewrite fix_lines_cons.
    assert (E : decorated p && bare_property l = false).
    { destruct Hp as [Hp | Hp]; [now rewrite Hp |].
      unfold bare_property.
      rewrite (lacks_not_contains ":" EmptyString l)
        by (apply Hp; now left).
      apply andb_false_r. }
    rewrite E. f_equal. apply IH.
    - destruct H as [H | H]; [left | right; intros; apply H; now right].
      unfold decorated, strip. rewrite starts_with_at_rstrip.
      assert (Hl : lacks "@" (lstrip l) = true)
        by (apply lacks_lstrip, H; now left).
      destruct (lstrip l) as [| c x]; [reflexivity |].
      rewrite lacks_cons in Hl. apply andb_true_iff in Hl as [Hc _].
      apply negb_true_iff in Hc. cbn [starts_with]. now rewrite Hc.
    - destruct H as [H | H]; [left | right]; intros; apply H; now right. }
  apply G; [now left | exact H].
Qed.

(** A text without [@], and a text without a colon, come back from
    [fix_class_properties] as they went in. *)
Theorem fix_class_properties_unchanged :
  forall content : string,
    lacks "@" content = true \/ lacks ":" content = true ->
    fix_class_properties content = content.
Proof.
  intros content H. unfold fix_class_properties.
  rewrite fix_lines_plain.
  - unfold nls. apply concat_split.
  - destruct H as [H | H]; [left | right]; intros l Hl;
      now apply (split_keeps_lack _ nl content).
Qed.

Lemma fix_lines_snoc (ls : list string) (line : string) :
  ls <> [] ->
  forall p,
    fix_lines p (ls ++ [line])
    = (fix_lines p ls
       ++ [if decorated (Some (last ls EmptyString)) && bare_property line
           then replace_first ":" "!:" line else line])%list.
Proof.
  induction ls as [| a ls IH]; intros Hne p; [contradiction |].
  destruct ls as [| b ls].
  - cbn [app]. now rewrite !fix_lines_cons.
  - change ((a :: b :: ls) ++ [line])%list
      with (a :: (b :: ls) ++ [line])%list.
    rewrite (fix_lines_cons p a), (fix_lines_cons p a (b :: ls)).
    rewrite IH by discriminate. reflexivity.
Qed.

(** A line put behind a text is treated by the line the text ends with:
    behind a line that starts, blanks apart, with [@], a line with a colon
    and without [=] and [!] gets [!] before its first colon; any other
    line is appended as it is.  The text before is treated on its own. *)
Theorem fix_class_properties_appended_line :
  forall (content line : string),
    lacks nl line = true ->
    fix_class_properties (content ++ nls ++ line)
    = fix_class_properties content ++ nls
      ++ (if starts_with "@" (strip (last (split nl content) EmptyString))
             && (contains ":" line && negb (contains "=" line)
                 && negb (contains "!" line))
          then replace_first ":" "!:" line else line).
Proof.
  intros content line Hl. unfold fix_class_properties, nls.
  change (content ++ String nl EmptyString ++ line)
    with (content ++ String nl line).
  rewrite split_append_sep, (split_lacking _ _ Hl).
  rewrite fix_lines_snoc by apply split_nonempty.
  rewrite concat_snoc by apply fix_lines_nonempty, split_nonempty.
  reflexivity.
Qed.

End ClassProperties.

Lemma fix_class_properties_unchanged_witness :
  BulkFixer.fix_class_properties "export class Dto { one: Status; }"
  = "export class Dto { one: Status; }".
Proof.
  apply fix_class_properties_unchanged. left. reflexivity.
Defined.

Lemma fix_class_properties_appended_line_witness :
  BulkFixer.fix_class_properties
    ("  @IsOptional()" ++ BulkFixer.nls ++ "  name: string;")
  = "  @IsOptional()" ++ BulkFixer.nls ++ "  name!: string;".
Proof.
  refine (eq_trans
            (fix_class_properties_appended_line
               "  @IsOptional()" "  name: string;" _) _);
    reflexivity.
Defined.

(** * What step 3 puts in the place of a call *)

Section Replaced.

Import Chars Str Re EnumFixer.























End Replaced.

(** * A file without class-validator import *)

Section NoValidatorImport.

Import Chars Str Re EnumFixer.


End NoValidatorImport.


